(** * code2prompt-manager: path matching, size estimation, auto-exclusion,
      reconciliation, directory scan, option handling, size display and
      command line of [index.js], embedded in Rocq.

    JavaScript strings are modelled as [string] (sequences of code units,
    here restricted to the 256 values of [ascii]); JavaScript numbers that
    hold byte counts are modelled as [Z].  A call that throws instead of
    returning is modelled with [option] ([None]) or, in the scanner, with
    a small exception monad.  The regular expressions of the host are an
    interface, [RegExpHost], of which a fragment is given in full. *)

From Stdlib Require Import ZArith QArith List Bool Lia Ascii String.
From Stdlib Require Import DecimalString Permutation Sorted Qabs Qround.
Import ListNotations.

Local Close Scope Q_scope.
Local Open Scope string_scope.
Local Open Scope Z_scope.

(* ------------------------------------------------------------------ *)
(** ** String primitives of the host language *)

Module JsString.

(** [s.startsWith(p)] *)
Fixpoint startsWith (s p : string) {struct p} : bool :=
  match p with
  | EmptyString => true
  | String b p' =>
      match s with
      | EmptyString => false
      | String a s' => Ascii.eqb a b && startsWith s' p'
      end
  end.

(** [s.endsWith(suffix)]: some tail of [s] is [suffix]. *)
Fixpoint endsWith (s suffix : string) : bool :=
  String.eqb s suffix ||
  match s with
  | EmptyString => false
  | String _ s' => endsWith s' suffix
  end.

(** [s.includes(sub)]: [sub] starts at some position of [s]. *)
Fixpoint includes (s sub : string) : bool :=
  startsWith s sub ||
  match s with
  | EmptyString => false
  | String _ s' => includes s' sub
  end.

(** [s.slice(0, -k)]: [s] without its last [k] code units (empty when
    [s] is shorter than [k]). *)
Definition slice_0_neg (s : string) (k : nat) : string :=
  String.substring 0 (String.length s - k) s.

(** [s.replace(/\*\*/g, by)]: every non-overlapping occurrence of two
    consecutive stars, scanning from the left. *)
Fixpoint replace_star_star (s by_ : string) : string :=
  match s with
  | EmptyString => EmptyString
  | String c rest =>
      if Ascii.eqb c "*" then
        match rest with
        | EmptyString => String c EmptyString
        | String c' rest' =>
            if Ascii.eqb c' "*" then by_ ++ replace_star_star rest' by_
            else String c (replace_star_star rest by_)
        end
      else String c (replace_star_star rest by_)
  end.

(** [s.replace(/\*/g, by)] *)
Fixpoint replace_star (s by_ : string) : string :=
  match s with
  | EmptyString => EmptyString
  | String c rest =>
      if Ascii.eqb c "*" then by_ ++ replace_star rest by_
      else String c (replace_star rest by_)
  end.

End JsString.

Import JsString.

(* ------------------------------------------------------------------ *)
(** ** A fragment of the host regular expressions

    [RegExp] compiles a source text and [RegExp_test] is [regex.test].
    The fragment covers what [isPathExcluded] produces from patterns
    written with ordinary characters, dots and stars: the assertions
    [^] and [$], the dot, a pattern character standing for itself, a
    bracketed class of plain members, and the greedy star after one of
    those.  On any other source text [RegExp] answers [None]: the
    fragment does not read it. *)

Module JsRegExp.

Inductive charset : Type :=
| CsChar (c : ascii)                         (* a character for itself *)
| CsDot                                      (* [.] *)
| CsClass (negated : bool) (members : list ascii).  (* [[...]], [[^...]] *)

Inductive term : Type :=
| Bol                                        (* [^] *)
| Eol                                        (* [$] *)
| One (cs : charset)
| Star (cs : charset).                       (* greedy [cs*] *)

Definition regex := list term.

(** LF and CR; the two other line terminators lie outside [ascii]. *)
Definition is_line_terminator (c : ascii) : bool :=
  Ascii.eqb c "010" || Ascii.eqb c "013".

Definition accepts (cs : charset) (c : ascii) : bool :=
  match cs with
  | CsChar a => Ascii.eqb c a
  | CsDot => negb (is_line_terminator c)
  | CsClass negated members =>
      xorb negated (existsb (Ascii.eqb c) members)
  end.

(** The syntax characters of the pattern grammar. *)
Definition is_syntax_char (c : ascii) : bool :=
  existsb (Ascii.eqb c)
    ["^"; "$"; "\"; "."; "*"; "+"; "?"; "("; ")"; "["; "]"; "{"; "}"; "|"]%char.

Inductive pmode : Type :=
| Top
| ClassOpen
| InClass (negated : bool) (members : list ascii).

(** One pass over the source text; [acc] holds the terms read so far,
    last one first.  A star turns the atom just read into its
    repetition and is refused after anything else. *)
Fixpoint parse (mode : pmode) (acc : list term) (src : string)
  : option regex :=
  match src with
  | EmptyString =>
      match mode with
      | Top => Some (rev acc)
      | _ => None
      end
  | String c src' =>
      match mode with
      | Top =>
          if Ascii.eqb c "^" then parse Top (Bol :: acc) src'
          else if Ascii.eqb c "$" then parse Top (Eol :: acc) src'
          else if Ascii.eqb c "." then parse Top (One CsDot :: acc) src'
          else if Ascii.eqb c "[" then parse ClassOpen acc src'
          else if Ascii.eqb c "*" then
            match acc with
            | One cs :: acc' => parse Top (Star cs :: acc') src'
            | _ => None
            end
          else if is_syntax_char c then None
          else parse Top (One (CsChar c) :: acc) src'
      | ClassOpen =>
          if Ascii.eqb c "^" then parse (InClass true []) acc src'
          else if Ascii.eqb c "]" then
            parse Top (One (CsClass false []) :: acc) src'
          else if Ascii.eqb c "\" || Ascii.eqb c "-" then None
          else parse (InClass false [c]) acc src'
      | InClass negated members =>
          if Ascii.eqb c "]" then
            parse Top (One (CsClass negated (rev members)) :: acc) src'
          else if Ascii.eqb c "\" || Ascii.eqb c "-" then None
          else parse (InClass negated (c :: members)) acc src'
      end
  end.

(** [new RegExp(src)] *)
Definition RegExp (src : string) : option regex := parse Top [] src.

(** Backtracking match of the terms against a prefix of [s];
    [at_start] tells whether [s] is the whole input. *)
Fixpoint run (ts : regex) : bool -> string -> bool :=
  match ts with
  | [] => fun _ _ => true
  | Bol :: ts' => fun at_start s => at_start && run ts' at_start s
  | Eol :: ts' => fun at_start s =>
      match s with
      | EmptyString => run ts' at_start s
      | String _ _ => false
      end
  | One cs :: ts' => fun _ s =>
      match s with
      | EmptyString => false
      | String c s' => accepts cs c && run ts' false s'
      end
  | Star cs :: ts' =>
      fix star (at_start : bool) (s : string) {struct s} : bool :=
        match s with
        | EmptyString => run ts' at_start s
        | String c s' =>
            (accepts cs c && star false s') || run ts' at_start s
        end
  end.

(** The search of [regex.test(s)] without flags: a match may start at
    any position. *)
Fixpoint search (ts : regex) (at_start : bool) (s : string) : bool :=
  run ts at_start s ||
  match s with
  | EmptyString => false
  | String _ s' => search ts false s'
  end.

Definition RegExp_test (r : regex) (s : string) : bool := search r true s.

End JsRegExp.

Import JsRegExp.

(** The regular expressions of the host, as the matcher calls them:
    [test_source src s] is [new RegExp(src).test(s)], and [None] when
    [new RegExp(src)] throws a SyntaxError.  The host agrees with the
    fragment on every source text that the fragment reads. *)
Class RegExpHost : Type := {
  test_source : string -> string -> option bool;
  test_source_fragment :
    forall (src : string) (r : regex),
      RegExp src = Some r ->
      forall s, test_source src s = Some (RegExp_test r s)
}.

(** The fragment taken as a host: it has no answer on the source texts
    that it does not read. *)
Definition fragment_test (src s : string) : option bool :=
  match RegExp src with
  | Some r => Some (RegExp_test r s)
  | None => None
  end.

Definition fragment_test_reads (src : string) (r : regex)
    (E : RegExp src = Some r) (s : string)
  : fragment_test src s = Some (RegExp_test r s) :=
  @eq_ind_r (option regex) (Some r)
    (fun o : option regex =>
       match o with
       | Some r0 => Some (RegExp_test r0 s)
       | None => None
       end = Some (RegExp_test r s))
    (eq_refl (Some (RegExp_test r s))) (RegExp src) E.

#[export] Instance fragment_host : RegExpHost := {|
  test_source := fragment_test;
  test_source_fragment := fragment_test_reads
|}.

(* ------------------------------------------------------------------ *)
(** ** utils.isPathExcluded, utils.isExcluded *)

(** The source text handed to [new RegExp] in the wildcard branch. *)
Definition wildcard_source (pattern : string) : string :=
  "^" ++ replace_star (replace_star_star pattern ".*") "[^/]*" ++ "$".

(** [utils.isPathExcluded(itemPath, pattern, isDirectory)]; [None]
    when [new RegExp] throws. *)
Definition isPathExcluded `{RegExpHost} (itemPath pattern : string)
    (isDirectory : bool) : option bool :=
  if endsWith pattern "/**" then
    let dirName := slice_0_neg pattern 3 in
    if negb (includes dirName "/") then
      Some (String.eqb itemPath dirName || startsWith itemPath (dirName ++ "/"))
    else
      Some (String.eqb itemPath dirName || startsWith itemPath (dirName ++ "/"))
  else if negb (includes pattern "*") then
    Some (String.eqb itemPath pattern)
  else
    let regex_test := test_source (wildcard_source pattern) in
    regex_test itemPath.

(** [utils.isExcluded(itemPath, excludePatterns, isDirectory)]:
    [Array.prototype.some] stops at the first pattern that matches. *)
Fixpoint isExcluded `{RegExpHost} (itemPath : string)
    (excludePatterns : list string) (isDirectory : bool) : option bool :=
  match excludePatterns with
  | [] => Some false
  | pattern :: rest =>
      match isPathExcluded itemPath pattern isDirectory with
      | None => None
      | Some true => Some true
      | Some false => isExcluded itemPath rest isDirectory
      end
  end.

(* ------------------------------------------------------------------ *)
(** ** Scan entries and the size estimate *)

(** The objects pushed by [scanDirectory].  [prettySize], a display
    text derived from [size], is left out. *)
Module Item.
Record t : Type := mk { path : string; isDirectory : bool; size : Z }.
End Item.

(** Lines written through [utils.log].  The two scanner warnings name
    the entry by its path relative to the scanned root; the text of the
    size line is [utils.formatSize] of the byte count. *)
Inductive log_line : Type :=
| log_warning (msg : string)
| log_success_size (label : string) (bytes : Z)
| log_could_not_access (relativePath err : string)
| log_could_not_read (relativeDir err : string).

Definition number_text (n : nat) : string :=
  NilZero.string_of_uint (Nat.to_uint n).

(** The body of the [forEach] of [estimateFinalSize]. *)
Definition estimate_step `{RegExpHost} (excludePatterns : list string)
    (totalSize : option Z) (item : Item.t) : option Z :=
  match totalSize with
  | None => None
  | Some total =>
      if negb (Item.isDirectory item) then
        match isExcluded (Item.path item) excludePatterns false with
        | None => None
        | Some false => Some (total + Item.size item)
        | Some true => Some total
        end
      else Some total
  end.

(** [estimateFinalSize(items, excludePatterns)] *)
Definition estimateFinalSize `{RegExpHost} (items : list Item.t)
    (excludePatterns : list string) : option Z :=
  match fold_left (estimate_step excludePatterns) items (Some 0) with
  | None => None
  | Some totalSize =>
      let markdownOverhead :=
        Z.min (Z.of_nat (List.length items) * 100) (50 * 1024) in
      Some (totalSize + markdownOverhead)
  end.

(* ------------------------------------------------------------------ *)
(** ** Array.prototype.sort with a comparison function

    The host sort is stable; with a comparison function that orders by
    a key its result is the one of this insertion sort. *)

Section ArraySort.
Context {A : Type} (compareFn : A -> A -> Z).

Fixpoint sort_insert (x : A) (sorted : list A) : list A :=
  match sorted with
  | [] => [x]
  | y :: ys =>
      if compareFn x y <=? 0 then x :: y :: ys
      else y :: sort_insert x ys
  end.

Fixpoint Array_sort (xs : list A) : list A :=
  match xs with
  | [] => []
  | x :: xs' => sort_insert x (Array_sort xs')
  end.
End ArraySort.

(** [array.includes(x)] on an array of strings. *)
Definition Array_includes (xs : list string) (x : string) : bool :=
  existsb (String.eqb x) xs.

(* ------------------------------------------------------------------ *)
(** ** createSelectionChoices *)

(** A file choice of the selection list ([name] and [short], display
    texts, are left out). *)
Module Choice.
Record t : Type := mk { value : string; size : Z; checked : bool }.
Definition check (c : t) : t := mk (value c) (size c) true.
End Choice.

(** A directory choice carries no [size]. *)
Module DirChoice.
Record t : Type := mk { value : string; checked : bool }.
End DirChoice.

Fixpoint mapM {A B : Type} (f : A -> option B) (xs : list A)
  : option (list B) :=
  match xs with
  | [] => Some []
  | x :: xs' =>
      match f x with
      | None => None
      | Some y =>
          match mapM f xs' with
          | None => None
          | Some ys => Some (y :: ys)
          end
      end
  end.

Definition by_size_desc (a b : Item.t) : Z := Item.size b - Item.size a.

Definition fileChoices `{RegExpHost} (items : list Item.t)
    (allExcludes : list string)
  : option (list Choice.t) :=
  mapM (fun item =>
          match isExcluded (Item.path item) allExcludes false with
          | None => None
          | Some c => Some (Choice.mk (Item.path item) (Item.size item) c)
          end)
       (Array_sort by_size_desc
          (filter (fun item => negb (Item.isDirectory item)) items)).

Definition directoryChoices `{RegExpHost} (items : list Item.t)
    (allExcludes : list string) : option (list DirChoice.t) :=
  mapM (fun item =>
          match isExcluded (Item.path item) allExcludes true with
          | None => None
          | Some c => Some (DirChoice.mk (Item.path item ++ "/**") c)
          end)
       (Array_sort by_size_desc (filter Item.isDirectory items)).

(* ------------------------------------------------------------------ *)
(** ** autoExcludeFiles

    The choice objects are shared between [choices], the sorted copy
    the loop walks and the list shown to the user, so the loop refers
    to them by their position in [choices] and the marks are written
    back to that array.  Sizes and the limit are whole numbers of
    bytes; for a limit below 2^48 in absolute value the host
    comparison of such a number with the double [sizeLimit * 0.95] has
    the outcome of the exact comparison (lemma [above_target_agrees]),
    which is the one computed here over the rationals. *)

Definition targetSize (sizeLimit : Z) : Q := (inject_Z sizeLimit * (95 # 100))%Q.

Definition above_target (remainingSize : Z) (target : Q) : bool :=
  negb (Qle_bool (inject_Z remainingSize) target).

Definition by_choice_size_desc (a b : nat * Choice.t) : Z :=
  Choice.size (snd b) - Choice.size (snd a).

Definition indexed {A : Type} (xs : list A) : list (nat * A) :=
  combine (seq 0 (List.length xs)) xs.

(** The [for ... of] loop with its [break]. *)
Fixpoint exclude_loop (target : Q) (filesToConsider : list (nat * Choice.t))
    (remainingSize : Z) (autoExcluded : list string) (marked : list nat)
  : list string * list nat * Z :=
  match filesToConsider with
  | [] => (autoExcluded, marked, remainingSize)
  | (i, file) :: rest =>
      if above_target remainingSize target then
        exclude_loop target rest (remainingSize - Choice.size file)
          (autoExcluded ++ [Choice.value file]) (marked ++ [i])
      else (autoExcluded, marked, remainingSize)
  end.

Record AutoExclude : Type := mkAutoExclude {
  autoExcluded : list string;        (* the returned array *)
  choices_after : list Choice.t;     (* [choices] once the call is over *)
  auto_log : list log_line
}.

Definition mark_choices (marked : list nat) (choices : list Choice.t)
  : list Choice.t :=
  map (fun ic : nat * Choice.t =>
         if existsb (Nat.eqb (fst ic)) marked then Choice.check (snd ic)
         else snd ic)
      (indexed choices).

Definition unchecked (ic : nat * Choice.t) : bool :=
  negb (Choice.checked (snd ic)).

(** The lines logged once the loop is over. *)
Definition auto_report (excluded : list string) (remainingSize : Z)
  : list log_line :=
  if (0 <? List.length excluded)%nat then
    log_warning
      (String "010" "Auto-excluded " ++ number_text (List.length excluded)
         ++ " files to meet size limit:")
    :: map (fun file => log_warning ("  - " ++ file)) excluded
    ++ [log_success_size "New estimated size: " remainingSize]
  else [].

Definition autoExcludeFiles (choices : list Choice.t)
    (initialSize sizeLimit : Z) (autoExclude : bool) : AutoExclude :=
  if autoExclude && (sizeLimit <? initialSize) then
    let filesToConsider :=
      Array_sort by_choice_size_desc
        (filter unchecked (indexed choices)) in
    let '(excluded, marked, remainingSize) :=
      exclude_loop (targetSize sizeLimit) filesToConsider initialSize [] [] in
    mkAutoExclude excluded (mark_choices marked choices)
      (auto_report excluded remainingSize)
  else mkAutoExclude [] choices [].

(* ------------------------------------------------------------------ *)
(** ** Reconciliation of the selection: processUnselectedAutoExcludes
       and the end of main *)

Definition unselectedAutoExcludes (autoExcluded selectedExcludes : list string)
  : list string :=
  filter (fun item => negb (Array_includes selectedExcludes item)) autoExcluded.

Definition processUnselectedAutoExcludes
    (autoExcluded selectedExcludes : list string) : list log_line :=
  let unselected := unselectedAutoExcludes autoExcluded selectedExcludes in
  if (0 <? List.length unselected)%nat then
    log_warning
      ("You un-selected " ++ number_text (List.length unselected)
         ++ " auto-excluded files that will be INCLUDED in the output:")
    :: map (fun file => log_warning ("  + " ++ file)) unselected
  else [].

(** [new Set(xs)] keeps the values in insertion order, a value already
    present is not added again; [Array.from] lists them in that order. *)
Definition Set_add (set : list string) (x : string) : list string :=
  if Array_includes set x then set else set ++ [x].

Definition Array_from_Set (xs : list string) : list string :=
  fold_left Set_add xs [].

Definition finalExcludes (defaultExcludes extraExcludes selectedExcludes
    : list string) : list string :=
  defaultExcludes ++ extraExcludes ++ selectedExcludes.

Definition dedupedExcludes (defaultExcludes extraExcludes selectedExcludes
    : list string) : list string :=
  Array_from_Set (finalExcludes defaultExcludes extraExcludes selectedExcludes).


(* ------------------------------------------------------------------ *)
(** ** Configuration *)

Definition COMMON_EXCLUDE_DIRS : list string :=
  [ "node_modules"; ".git"; "vendor"; ".next"; "dist"; "build"; ".husky";
    "public"; "docs"; "assets/fonts"; "assets/images"; "assets/svg";
    "src/assets/images"; "assets/icons"; "languages"; "images"; "tests" ].

Definition COMMON_EXCLUDE_FILES : list string :=
  [ "screenshot.png"; "screenshot.jpg"; "package-lock.json"; "composer.lock";
    "yarn.lock"; "*.min.js"; "*.min.css" ].

(** [getExcludeDirs(options)], on the trimmed pieces of
    [options.extraExclude] (none when the option is absent). *)
Definition getExcludeDirs (extraExclude : list string) : list string :=
  fold_left
    (fun skipDirs pattern =>
       if endsWith pattern "/**" then
         let dirName := slice_0_neg pattern 3 in
         if negb (Array_includes skipDirs dirName)
         then (skipDirs ++ [dirName])%list else skipDirs
       else if negb (includes pattern "*") then
         if negb (Array_includes skipDirs pattern)
         then (skipDirs ++ [pattern])%list else skipDirs
       else skipDirs)
    extraExclude COMMON_EXCLUDE_DIRS.

(** The [defaultExcludes] of [prepareExcludePatterns]. *)
Definition defaultExcludes : list string :=
  (map (fun dir => (dir ++ "/**")%string) COMMON_EXCLUDE_DIRS
     ++ COMMON_EXCLUDE_FILES)%list.

(* ------------------------------------------------------------------ *)
(** ** The file system seen by a scan

    What [fs.statSync] and [fs.readdirSync] answer below the scanned
    root is a finite tree: an entry is a file with its size, a
    directory with its listing, a directory whose listing cannot be
    read, or an entry on which [statSync] throws. *)

#[local] Unset Elimination Schemes.
Inductive node : Type :=
| File (size : Z)
| Dir (entries : list (string * node))
| DirUnreadable (err : string)
| NoStat (err : string).
#[local] Set Elimination Schemes.

Inductive outcome (A : Type) : Type :=
| Returned (a : A)
| Thrown (err : string).
Arguments Returned {A} a.
Arguments Thrown {A} err.

Module Stats.
Record t : Type := mk { isDirectory : bool; size : Z }.
End Stats.

(** [fs.statSync]; the size reported for a directory is never read. *)
Definition statSync (n : node) : outcome Stats.t :=
  match n with
  | File size => Returned (Stats.mk false size)
  | Dir _ => Returned (Stats.mk true 0)
  | DirUnreadable _ => Returned (Stats.mk true 0)
  | NoStat err => Thrown err
  end.

(** The error of [fs.readdirSync] on anything but a readable directory. *)
Definition readdir_error (n : node) : string :=
  match n with
  | File _ => "ENOTDIR: not a directory, scandir"
  | Dir _ => ""
  | DirUnreadable err => err
  | NoStat err => err
  end.

(** [utils.getDirSize]: both [catch] clauses are empty, so an entry
    that cannot be read adds nothing. *)
Fixpoint getDirSize (n : node) : Z :=
  match n with
  | Dir entries =>
      (fix loop (es : list (string * node)) (totalSize : Z) {struct es} : Z :=
         match es with
         | [] => totalSize
         | (_, child) :: rest =>
             loop rest
               match child with
               | NoStat _ => totalSize
               | File size => totalSize + size
               | Dir _ | DirUnreadable _ => totalSize + getDirSize child
               end
         end) entries 0
  | _ => 0
  end.

(** [path.join(baseDir, entry)] for a base that is empty or a path
    built by this very function, and a name listed by [readdirSync]. *)
Definition path_join (baseDir entry : string) : string :=
  if String.eqb baseDir "" then entry else baseDir ++ "/" ++ entry.

(** The [skipDirs.some(...)] test of [scan]. *)
Definition shouldSkip (skipDirs : list string)
    (entry baseDir relativePath : string) : bool :=
  existsb
    (fun skipPath =>
       if negb (includes skipPath "/") then
         String.eqb entry skipPath && String.eqb baseDir ""
       else String.eqb relativePath skipPath)
    skipDirs.

(* ------------------------------------------------------------------ *)
(** ** scanDirectory, with its effects

    [scan] pushes to [items], writes warnings and may meet exceptions
    of the file system; a computation takes the state and either
    returns or throws. *)

Module Scan.

Record state : Type := mkState { items : list Item.t; log : list log_line }.

Definition M (A : Type) : Type := state -> outcome A * state.

Definition ret {A : Type} (a : A) : M A := fun st => (Returned a, st).

Definition bind {A B : Type} (m : M A) (k : A -> M B) : M B :=
  fun st =>
    match m st with
    | (Returned a, st') => k a st'
    | (Thrown err, st') => (Thrown err, st')
    end.

Definition throw {A : Type} (err : string) : M A := fun st => (Thrown err, st).

(** [try { body } catch (err) { handler }] *)
Definition try_catch {A : Type} (body : M A) (handler : string -> M A) : M A :=
  fun st =>
    match body st with
    | (Returned a, st') => (Returned a, st')
    | (Thrown err, st') => handler err st'
    end.

Definition lift {A : Type} (o : outcome A) : M A := fun st => (o, st).

Definition push (item : Item.t) : M unit :=
  fun st => (Returned tt, mkState (items st ++ [item])%list (log st)).

Definition warn (line : log_line) : M unit :=
  fun st => (Returned tt, mkState (items st) (log st ++ [line])%list).

Declare Scope scan_scope.
Delimit Scope scan_scope with scan.
Notation "x <- m ;; k" := (bind m (fun x => k))
  (at level 61, m at next level, right associativity) : scan_scope.
Notation "m ;;; k" := (bind m (fun _ => k))
  (at level 61, right associativity) : scan_scope.

Local Open Scope scan_scope.

(** The inner function [scan(dir, baseDir)]; [n] is what the file
    system holds at [dir]. *)
Fixpoint scan (skipDirs : list string) (n : node) (baseDir : string)
    {struct n} : M unit :=
  try_catch
    match n with
    | Dir entries =>
        (fix for_of (es : list (string * node)) {struct es} : M unit :=
           match es with
           | [] => ret tt
           | (entry, child) :: rest =>
               let relativePath := path_join baseDir entry in
               try_catch
                 (stats <- lift (statSync child) ;;
                  if Stats.isDirectory stats then
                    if shouldSkip skipDirs entry baseDir relativePath then
                      push (Item.mk relativePath true 0)
                    else
                      let dirSize := getDirSize child in
                      push (Item.mk relativePath true dirSize) ;;;
                      scan skipDirs child relativePath
                  else
                    push (Item.mk relativePath false (Stats.size stats)))
                 (fun err => warn (log_could_not_access relativePath err)) ;;;
               for_of rest
           end) entries
    | _ => throw (readdir_error n)
    end
    (fun err => warn (log_could_not_read baseDir err)).

(** The [for ... of] loop of [scan] over a listing, by itself. *)
Definition for_of (skipDirs : list string) (baseDir : string)
  : list (string * node) -> M unit :=
  fix for_of (es : list (string * node)) {struct es} : M unit :=
    match es with
    | [] => ret tt
    | (entry, child) :: rest =>
        let relativePath := path_join baseDir entry in
        try_catch
          (stats <- lift (statSync child) ;;
           if Stats.isDirectory stats then
             if shouldSkip skipDirs entry baseDir relativePath then
               push (Item.mk relativePath true 0)
             else
               let dirSize := getDirSize child in
               push (Item.mk relativePath true dirSize) ;;;
               scan skipDirs child relativePath
           else
             push (Item.mk relativePath false (Stats.size stats)))
          (fun err => warn (log_could_not_access relativePath err)) ;;;
        for_of rest
    end.

(** [scanDirectory(rootDir, skipDirs)]: what the caller receives, and
    the lines logged meanwhile. *)
Definition scanDirectory (root : node) (skipDirs : list string)
  : outcome (list Item.t) * list log_line :=
  match scan skipDirs root "" (mkState [] []) with
  | (Returned _, st) =>
      (Returned (Array_sort by_size_desc (items st)), log st)
  | (Thrown err, st) => (Thrown err, log st)
  end.

End Scan.

Import Scan.

(* ------------------------------------------------------------------ *)
(** ** Vocabulary of the statements *)

(** A pattern whose matching always returns: a subtree pattern, a
    literal, or a wildcard whose regular expression the fragment reads. *)
Definition pattern_compiles (pattern : string) : bool :=
  endsWith pattern "/**" || negb (includes pattern "*")
  || match RegExp (wildcard_source pattern) with Some _ => true | None => false end.

(** The path matches the pattern. *)
Definition matchesb `{RegExpHost} (itemPath pattern : string) : bool :=
  match isPathExcluded itemPath pattern false with
  | Some b => b
  | None => false
  end.

Definition sumZ {A : Type} (f : A -> Z) (l : list A) : Z :=
  fold_right Z.add 0 (map f l).




(** The list without the values that already occur at an earlier
    position. *)
Definition first_occurrences (xs : list string) : list string :=
  map snd
    (filter (fun ix : nat * string =>
               negb (Array_includes (firstn (fst ix) xs) (snd ix)))
            (indexed xs)).

(** The candidates of the planner: the choices not yet checked, each
    with its position, in the order the loop walks them. *)
Definition candidates (choices : list Choice.t) : list (nat * Choice.t) :=
  Array_sort by_choice_size_desc (filter unchecked (indexed choices)).

Definition total_size (chosen : list (nat * Choice.t)) : Z :=
  sumZ (fun ic => Choice.size (snd ic)) chosen.

(** [remaining] exceeds 95% of the limit. *)
Definition exceeds_target (remaining sizeLimit : Z) : Prop :=
  (inject_Z sizeLimit * 0.95 < inject_Z remaining)%Q.



(** The wildcard matcher as the specification words it: every character
    other than a star stands for itself (it is escaped), two stars
    stand for any characters, one star for any characters but the
    separator, and the whole path is matched. *)
Module SpecGlob.

Inductive token : Type :=
| AnyDeep                      (* two stars *)
| AnySegment                   (* one star *)
| Lit (c : ascii).

Fixpoint tokens (pattern : string) : list token :=
  match pattern with
  | EmptyString => []
  | String c rest =>
      if Ascii.eqb c "*" then
        match rest with
        | EmptyString => [AnySegment]
        | String c' rest' =>
            if Ascii.eqb c' "*" then AnyDeep :: tokens rest'
            else AnySegment :: tokens rest
        end
      else Lit c :: tokens rest
  end.

Fixpoint accepts_all (ts : list token) : string -> bool :=
  match ts with
  | [] => fun s => match s with EmptyString => true | _ => false end
  | Lit a :: ts' => fun s =>
      match s with
      | EmptyString => false
      | String c s' => Ascii.eqb c a && accepts_all ts' s'
      end
  | AnyDeep :: ts' =>
      fix deep (s : string) {struct s} : bool :=
        accepts_all ts' s ||
        match s with
        | EmptyString => false
        | String _ s' => deep s'
        end
  | AnySegment :: ts' =>
      fix segment (s : string) {struct s} : bool :=
        accepts_all ts' s ||
        match s with
        | EmptyString => false
        | String c s' => negb (Ascii.eqb c "/") && segment s'
        end
  end.

Definition matches (itemPath pattern : string) : bool :=
  accepts_all (tokens pattern) itemPath.

End SpecGlob.

(** Patterns written with stars, dots and characters that are not
    syntax characters of the regular expressions. *)
Definition plain_char (c : ascii) : bool :=
  Ascii.eqb c "*" || Ascii.eqb c "." || negb (is_syntax_char c).

Fixpoint plain (pattern : string) : bool :=
  match pattern with
  | EmptyString => true
  | String c rest => plain_char c && plain rest
  end.

(** What the wildcard branch accepts for a pattern without two stars in
    a row: a star stands for any run of characters other than the
    separator, a dot for any one character but a line terminator (the
    pattern is not escaped), another character for itself, and the
    whole path is matched. *)
Inductive unescaped_glob : string -> string -> Prop :=
| glob_end : unescaped_glob "" ""
| glob_star (pattern segment rest : string) :
    includes segment "/" = false ->
    unescaped_glob pattern rest ->
    unescaped_glob (String "*" pattern) (segment ++ rest)
| glob_dot (pattern : string) (c : ascii) (rest : string) :
    is_line_terminator c = false ->
    unescaped_glob pattern rest ->
    unescaped_glob (String "." pattern) (String c rest)
| glob_char (pattern : string) (c : ascii) (rest : string) :
    c <> "*"%char -> c <> "."%char ->
    unescaped_glob pattern rest ->
    unescaped_glob (String c pattern) (String c rest).

(** The terms [new RegExp] reads from the source text of such a pattern. *)
Definition term_of (c : ascii) : term :=
  if Ascii.eqb c "*" then Star (CsClass true ["/"%char])
  else if Ascii.eqb c "." then One CsDot
  else One (CsChar c).

Fixpoint terms_of (pattern : string) : regex :=
  match pattern with
  | EmptyString => []
  | String c rest => term_of c :: terms_of rest
  end.

(** A regular expression without a start assertion. *)
Definition no_bol (ts : regex) : Prop := Forall (fun t => t <> Bol) ts.

(* ------------------------------------------------------------------ *)
(** ** Vocabulary of the scanner statements *)

(** What [readdirSync] lists: names that are not empty and hold no
    separator, no name twice in one directory. *)
Definition name_ok (name : string) : bool :=
  negb (includes name "/") && negb (String.eqb name "").

Fixpoint distinct (names : list string) : bool :=
  match names with
  | [] => true
  | name :: rest => negb (Array_includes rest name) && distinct rest
  end.

Fixpoint well_listed (n : node) : bool :=
  match n with
  | Dir entries =>
      distinct (map fst entries)
      && forallb (fun e : string * node => name_ok (fst e) && well_listed (snd e))
           entries
  | _ => true
  end.

Definition is_directory (n : node) : bool :=
  match n with
  | Dir _ | DirUnreadable _ => true
  | _ => false
  end.

(** The entry pushed for one name of a listing, if any. *)
Definition emitted (skipDirs : list string) (baseDir entry : string)
    (child : node) : option Item.t :=
  let relativePath := path_join baseDir entry in
  match child with
  | NoStat _ => None
  | File size => Some (Item.mk relativePath false size)
  | Dir _ | DirUnreadable _ =>
      Some (Item.mk relativePath true
              (if shouldSkip skipDirs entry baseDir relativePath then 0
               else getDirSize child))
  end.

(** The entries a scan of [n] at [baseDir] pushes, in order. *)
Fixpoint walk (skipDirs : list string) (n : node) (baseDir : string)
  : list Item.t :=
  match n with
  | Dir entries =>
      flat_map
        (fun e : string * node =>
           let (entry, child) := e in
           let relativePath := path_join baseDir entry in
           match child with
           | NoStat _ => []
           | File size => [Item.mk relativePath false size]
           | Dir _ | DirUnreadable _ =>
               if shouldSkip skipDirs entry baseDir relativePath then
                 [Item.mk relativePath true 0]
               else
                 Item.mk relativePath true (getDirSize child)
                 :: walk skipDirs child relativePath
           end)
        entries
  | _ => []
  end.

(** The lines a scan of [n] at [baseDir] logs, in order. *)
Fixpoint walk_log (skipDirs : list string) (n : node) (baseDir : string)
  : list log_line :=
  match n with
  | Dir entries =>
      flat_map
        (fun e : string * node =>
           let (entry, child) := e in
           let relativePath := path_join baseDir entry in
           match child with
           | NoStat err => [log_could_not_access relativePath err]
           | File _ => []
           | Dir _ | DirUnreadable _ =>
               if shouldSkip skipDirs entry baseDir relativePath then []
               else walk_log skipDirs child relativePath
           end)
        entries
  | _ => [log_could_not_read baseDir (readdir_error n)]
  end.

(** [reaches skipDirs n baseDir b entry child]: the scan of [n] at
    [baseDir] meets, in the directory of relative path [b], the name
    [entry] that holds [child]. *)
Inductive reaches (skipDirs : list string)
  : node -> string -> string -> string -> node -> Prop :=
| reaches_entry (entries : list (string * node)) (baseDir entry : string)
    (child : node) :
    In (entry, child) entries ->
    reaches skipDirs (Dir entries) baseDir baseDir entry child
| reaches_below (entries : list (string * node)) (baseDir entry : string)
    (child : node) (b e : string) (c : node) :
    In (entry, child) entries ->
    is_directory child = true ->
    shouldSkip skipDirs entry baseDir (path_join baseDir entry) = false ->
    reaches skipDirs child (path_join baseDir entry) b e c ->
    reaches skipDirs (Dir entries) baseDir b e c.

(** What [path_join baseDir] puts before a name. *)
Definition join_prefix (baseDir : string) : string :=
  if String.eqb baseDir "" then "" else baseDir ++ "/".


(** Descending order on a key, the comparison of every sort of the
    program. *)
Definition desc_by {A : Type} (key : A -> Z) (a b : A) : Z := key b - key a.

(** Induction on the file-system tree, through the listings. *)
Section NodeInduction.
Variable P : node -> Prop.
Hypothesis P_File : forall size, P (File size).
Hypothesis P_Dir :
  forall entries, Forall (fun e : string * node => P (snd e)) entries ->
                  P (Dir entries).
Hypothesis P_DirUnreadable : forall err, P (DirUnreadable err).
Hypothesis P_NoStat : forall err, P (NoStat err).

Fixpoint node_induction (n : node) : P n :=
  match n with
  | File size => P_File size
  | Dir entries =>
      P_Dir entries
        ((fix all (es : list (string * node))
            : Forall (fun e : string * node => P (snd e)) es :=
            match es with
            | [] => Forall_nil _
            | e :: es' =>
                Forall_cons e
                  (match e return P (snd e) with
                   | (_, child) => node_induction child
                   end)
                  (all es')
            end) entries)
  | DirUnreadable err => P_DirUnreadable err
  | NoStat err => P_NoStat err
  end.
End NodeInduction.

(* ------------------------------------------------------------------ *)
(** ** Text primitives of the option handling *)

(** The white space and line terminators among the code units of
    [ascii]: TAB, LF, VT, FF, CR, SP and NBSP. *)
Definition is_white_space (c : ascii) : bool :=
  existsb (Ascii.eqb c) ["009"; "010"; "011"; "012"; "013"; " "; "160"]%char.

Fixpoint trimStart (s : string) : string :=
  match s with
  | EmptyString => EmptyString
  | String c rest => if is_white_space c then trimStart rest else s
  end.

Fixpoint trimEnd (s : string) : string :=
  match s with
  | EmptyString => EmptyString
  | String c rest =>
      match trimEnd rest with
      | EmptyString => if is_white_space c then EmptyString
                       else String c EmptyString
      | kept => String c kept
      end
  end.

(** [s.trim()] *)
Definition String_trim (s : string) : string := trimEnd (trimStart s).

(** The piece before the first comma, and the pieces after it. *)
Fixpoint split_at_commas (s : string) : string * list string :=
  match s with
  | EmptyString => (EmptyString, [])
  | String c rest =>
      let (piece, pieces) := split_at_commas rest in
      if Ascii.eqb c "," then (EmptyString, piece :: pieces)
      else (String c piece, pieces)
  end.

(** [s.split(',')] *)
Definition String_split (s : string) : list string :=
  let (piece, pieces) := split_at_commas s in piece :: pieces.

(** [xs.join(',')] *)
Fixpoint Array_join (xs : list string) : string :=
  match xs with
  | [] => EmptyString
  | x :: rest =>
      match rest with
      | [] => x
      | _ :: _ => x ++ "," ++ Array_join rest
      end
  end.

(* ------------------------------------------------------------------ *)
(** ** The options of the command line

    The options read by [getExcludeDirs], [prepareExcludePatterns] and
    [buildCommand].  An option that was not given is [undefined]
    ([None]); the three flags are [true] or [undefined] ([false]). *)

Module Options.
Record t : Type := mk {
  directory : string;
  extraExclude : option string;
  include : option string;
  outputFile : option string;
  outputFormat : option string;
  includePriority : bool;
  fullDirectoryTree : bool;
  encoding : option string;
  lineNumbers : bool
}.
End Options.

(** [if (value)] on a text or [undefined]: the empty text is falsy. *)
Definition truthy (value : option string) : bool :=
  match value with
  | Some s => negb (String.eqb s "")
  | None => false
  end.

(** The text of an option inside a template literal. *)
Definition text_of (value : option string) : string :=
  match value with
  | Some s => s
  | None => "undefined"
  end.

(** The pieces walked by the [forEach] of [getExcludeDirs], each one
    trimmed; none when [options.extraExclude] is falsy. *)
Definition trimmed_pieces (extraExclude : option string) : list string :=
  if truthy extraExclude
  then map String_trim (String_split (text_of extraExclude))
  else [].

(** [getExcludeDirs(options)] *)
Definition getExcludeDirs_options (options : Options.t) : list string :=
  getExcludeDirs (trimmed_pieces (Options.extraExclude options)).

(* ------------------------------------------------------------------ *)
(** ** prepareExcludePatterns

    [isDirectoryAt directory pattern] is the test
    [fs.existsSync(p) && fs.statSync(p).isDirectory()] at
    [p = path.join(directory, pattern)]: the file system answers it or
    throws. *)

Module ExcludePatterns.
Record t : Type := mk {
  defaultExcludes : list string;
  extraExcludes : list string;
  allExcludes : list string
}.
End ExcludePatterns.

(** The body of the [forEach] of [prepareExcludePatterns]. *)
Definition extra_step (isDirectoryAt : string -> string -> outcome bool)
    (directory : string) (extraExcludes : outcome (list string))
    (piece : string) : outcome (list string) :=
  match extraExcludes with
  | Thrown err => Thrown err
  | Returned extraExcludes =>
      let pattern := String_trim piece in
      if negb (String.eqb pattern "") then
        if negb (includes pattern "*") then
          match isDirectoryAt directory pattern with
          | Thrown err => Thrown err
          | Returned true => Returned (extraExcludes ++ [(pattern ++ "/**")%string])%list
          | Returned false => Returned (extraExcludes ++ [pattern])%list
          end
        else Returned (extraExcludes ++ [pattern])%list
      else Returned extraExcludes
  end.

Definition prepareExcludePatterns
    (isDirectoryAt : string -> string -> outcome bool)
    (options : Options.t) : outcome ExcludePatterns.t :=
  let pieces :=
    if truthy (Options.extraExclude options)
    then String_split (text_of (Options.extraExclude options))
    else [] in
  match fold_left (extra_step isDirectoryAt (Options.directory options))
          pieces (Returned []) with
  | Thrown err => Thrown err
  | Returned extraExcludes =>
      Returned (ExcludePatterns.mk defaultExcludes extraExcludes
                  (defaultExcludes ++ extraExcludes)%list)
  end.

(* ------------------------------------------------------------------ *)
(** ** utils.formatSize

    [bytes] is a whole number; dividing it by 1024 is exact in the
    doubles of the host below 2^53, so [size] is held as a rational.
    [toFixed(2)] takes the nearest number of hundredths, the larger one
    on a tie, of the absolute value, and writes it with at least one
    digit before the point.  This is what the host writes for a value
    below 10^21, as the size of every byte count below 2^53 is; from
    10^21 on the host writes the number with an exponent, which is
    left out here. *)

Definition units : list string := ["B"; "KB"; "MB"; "GB"].

(** The [while] loop; [later] holds the units after [units[unitIndex]],
    so that [unitIndex < units.length - 1] reads [later <> []]. *)
Fixpoint format_loop (later : list string) (size : Q) (unitIndex : nat)
  : Q * nat :=
  match later with
  | [] => (size, unitIndex)
  | _ :: later' =>
      if Qle_bool (inject_Z 1024) size
      then format_loop later' (size / inject_Z 1024)%Q (S unitIndex)
      else (size, unitIndex)
  end.

Definition Z_text (n : Z) : string :=
  NilZero.string_of_uint (N.to_uint (Z.to_N n)).

Fixpoint zeros (k : nat) : string :=
  match k with
  | O => EmptyString
  | S k' => String "0" (zeros k')
  end.

(** The digits of [n] hundredths with the point before the last two. *)
Definition fixed_text (n : Z) : string :=
  let m := Z_text n in
  let m := if (String.length m <=? 2)%nat
           then zeros (3 - String.length m) ++ m else m in
  let k := String.length m in
  String.substring 0 (k - 2) m ++ "." ++ String.substring (k - 2) 2 m.

(** [x.toFixed(2)] *)
Definition toFixed2 (x : Q) : string :=
  let n := Qfloor (Qabs x * inject_Z 100 + (1 # 2))%Q in
  (if Qle_bool (inject_Z 0) x then "" else "-") ++ fixed_text n.

Definition formatSize (bytes : Z) : string :=
  let '(size, unitIndex) := format_loop (tl units) (inject_Z bytes) 0 in
  toFixed2 size ++ " " ++ nth unitIndex units "".

(* ------------------------------------------------------------------ *)
(** ** displaySizeInfo

    The line it logs; the colours that [chalk] puts around the text in
    brackets are left out. *)


(* ------------------------------------------------------------------ *)
(** ** buildCommand *)

(** The double quote. *)
Definition dquote : string := String "034" EmptyString.

(** [options.include.split(',').map(trim).filter(pattern => pattern)] *)
Definition includePatterns (include : string) : list string :=
  filter (fun pattern => negb (String.eqb pattern ""))
    (map String_trim (String_split include)).

Definition booleanFlags (options : Options.t) : list (bool * string) :=
  [ (Options.includePriority options, "--include-priority");
    (Options.fullDirectoryTree options, "--full-directory-tree");
    (Options.lineNumbers options, "--line-numbers") ].

Definition buildCommand (options : Options.t) (allExcludes : list string)
  : string :=
  let cmd := "code2prompt" in
  let cmd :=
    if truthy (Options.outputFile options)
    then cmd ++ " -O " ++ dquote ++ text_of (Options.outputFile options)
             ++ dquote
    else cmd in
  let cmd :=
    if truthy (Options.outputFormat options)
       && negb (String.eqb (text_of (Options.outputFormat options)) "markdown")
    then cmd ++ " -F " ++ text_of (Options.outputFormat options)
    else cmd in
  let cmd :=
    fold_left
      (fun cmd (entry : bool * string) =>
         let (enabled, flag) := entry in
         if enabled then cmd ++ " " ++ flag else cmd)
      (booleanFlags options) cmd in
  let cmd :=
    if truthy (Options.encoding options)
    then cmd ++ " -c " ++ text_of (Options.encoding options)
    else cmd in
  let cmd :=
    if (0 <? List.length allExcludes)%nat
    then cmd ++ " -e " ++ dquote ++ Array_join allExcludes ++ dquote
    else cmd in
  let cmd :=
    if truthy (Options.include options) then
      let patterns := includePatterns (text_of (Options.include options)) in
      if (0 <? List.length patterns)%nat
      then cmd ++ " -i " ++ dquote ++ Array_join patterns ++ dquote
      else cmd
    else cmd in
  cmd ++ " " ++ dquote ++ Options.directory options ++ dquote.

(* ------------------------------------------------------------------ *)
(** ** The target of the planner in the doubles of the host

    [sizeLimit * 0.95] is a product of doubles: the exact product of
    [sizeLimit] and the double nearest to 0.95, which is
    [mantissa_0_95 / 2^53], rounded to the nearest number with 53
    binary digits, the even one on a tie.  The numbers are held as
    whole multiples of 2^-53, for a whole [sizeLimit] of at most 2^53
    in absolute value, which the host holds exactly. *)

Definition mantissa_0_95 : Z := 8556839292003942.

(** The nearest number with at most 53 binary digits followed by
    zeros; [n] is not negative. *)
Definition round53 (n : Z) : Z :=
  let shift := Z.log2 n - 52 in
  if shift <=? 0 then n
  else
    let unit := 2 ^ shift in
    let q := n / unit in
    let rest := n mod unit in
    if (2 * rest <? unit) || ((2 * rest =? unit) && Z.even q)
    then q * unit
    else (q + 1) * unit.

(** [sizeLimit * 0.95], in multiples of 2^-53. *)
Definition targetSize_double (sizeLimit : Z) : Z :=
  Z.sgn sizeLimit * round53 (Z.abs sizeLimit * mantissa_0_95).

(** [remainingSize > targetSize] on that double. *)
Definition above_target_double (remainingSize sizeLimit : Z) : bool :=
  targetSize_double sizeLimit <? remainingSize * 2 ^ 53.

(* ------------------------------------------------------------------ *)
(** ** Vocabulary of the further statements *)



(** The path is [dirName] or lies below it. *)
Definition at_or_below (dirName itemPath : string) : bool :=
  String.eqb itemPath dirName || startsWith itemPath (dirName ++ "/").

(** The unit [formatSize] settles on, and the hundredths it shows. *)
Definition unit_index (bytes : Z) : nat :=
  if bytes <? 1024 then 0
  else if bytes <? 1024 ^ 2 then 1
  else if bytes <? 1024 ^ 3 then 2
  else 3.

Definition hundredths (bytes : Z) (unitIndex : nat) : Z :=
  (200 * bytes + 1024 ^ Z.of_nat unitIndex) / (2 * 1024 ^ Z.of_nat unitIndex).

(** The record with another [include] option. *)
Definition with_include (options : Options.t) (include : option string)
  : Options.t :=
  Options.mk (Options.directory options) (Options.extraExclude options)
    include (Options.outputFile options) (Options.outputFormat options)
    (Options.includePriority options) (Options.fullDirectoryTree options)
    (Options.encoding options) (Options.lineNumbers options).

(** What [prepareExcludePatterns] makes of one comma-separated piece:
    nothing of a blank piece, a piece with a star as it is, another
    piece followed by "/**" when it names a directory and as it is
    otherwise. *)
Definition extra_pattern_from (isDirectoryAt : string -> string -> outcome bool)
    (directory piece q : string) : Prop :=
  let pattern := String_trim piece in
  pattern <> ""
  /\ ((includes pattern "*" = true /\ q = pattern)
      \/ (includes pattern "*" = false
          /\ isDirectoryAt directory pattern = Returned true
          /\ q = pattern ++ "/**")
      \/ (includes pattern "*" = false
          /\ isDirectoryAt directory pattern = Returned false
          /\ q = pattern)).

(** What [getExcludeDirs] makes of one trimmed piece: the directory of
    a piece that ends in "/**", a piece without star as it is, nothing
    of another piece. *)
Definition skip_entry_from (pattern d : string) : Prop :=
  (endsWith pattern "/**" = true /\ d = slice_0_neg pattern 3)
  \/ (endsWith pattern "/**" = false /\ includes pattern "*" = false
      /\ d = pattern).
(* ------------------------------------------------------------------ *)
(** ** Facts about the string primitives *)

Section StringFacts.

Lemma append_assoc (a b c : string) : (a ++ b) ++ c = a ++ (b ++ c).
Proof. induction a as [|x a IH]; simpl; [reflexivity | now rewrite IH]. Qed.

Lemma append_nil_r (a : string) : a ++ "" = a.
Proof. induction a as [|x a IH]; simpl; [reflexivity | now rewrite IH]. Qed.

Lemma length_append (a b : string) :
  String.length (a ++ b) = (String.length a + String.length b)%nat.
Proof. induction a as [|x a IH]; simpl; [reflexivity | now rewrite IH]. Qed.

Lemma startsWith_iff (s p : string) :
  startsWith s p = true <-> exists rest, s = p ++ rest.
Proof.
  revert s; induction p as [|b p IH]; intros s; simpl.
  - split; [intros _; now exists s | reflexivity].
  - destruct s as [|a s].
    + split; [discriminate | intros [rest H]; discriminate].
    + rewrite andb_true_iff, Ascii.eqb_eq, IH. split.
      * intros [-> [rest ->]]. now exists rest.
      * intros [rest H]. injection H as -> ->. split; [reflexivity | now exists rest].
Qed.

Lemma endsWith_iff (s suffix : string) :
  endsWith s suffix = true <-> exists pre, s = pre ++ suffix.
Proof.
  induction s as [|a s IH]; cbn [endsWith].
  - rewrite orb_false_r, String.eqb_eq. split.
    + intros <-. now exists "".
    + intros [[|x pre] H]; [exact H | discriminate].
  - rewrite orb_true_iff, String.eqb_eq, IH. split.
    + intros [<- | [pre ->]]; [now exists "" | now exists (String a pre)].
    + intros [[|x pre] H]; [now left | right].
      injection H as -> ->. now exists pre.
Qed.

Lemma includes_iff (s sub : string) :
  includes s sub = true <-> exists pre post, s = pre ++ sub ++ post.
Proof.
  induction s as [|a s IH]; cbn [includes].
  - rewrite orb_false_r, startsWith_iff. split.
    + intros [rest H]. now exists "", rest.
    + intros [[|x pre] [post H]]; [now exists post | discriminate].
  - rewrite orb_true_iff, startsWith_iff, IH. split.
    + intros [[rest H] | [pre [post ->]]].
      * now exists "", rest.
      * now exists (String a pre), post.
    + intros [[|x pre] [post H]]; [left; now exists post | right].
      injection H as -> ->. now exists pre, post.
Qed.

Lemma substring_0_append (a b : string) :
  String.substring 0 (String.length a) (a ++ b) = a.
Proof.
  induction a as [|x a IH]; simpl.
  - now destruct b.
  - now rewrite IH.
Qed.

Lemma slice_0_neg_append (a b : string) :
  slice_0_neg (a ++ b) (String.length b) = a.
Proof.
  unfold slice_0_neg. rewrite length_append.
  replace (String.length a + String.length b - String.length b)%nat
    with (String.length a) by lia.
  apply substring_0_append.
Qed.

Lemma no_star_no_tree_suffix (pattern : string) :
  includes pattern "*" = false -> endsWith pattern "/**" = false.
Proof.
  intros H. destruct (endsWith pattern "/**") eqn:E; [|reflexivity].
  apply endsWith_iff in E as [pre ->].
  assert (includes (pre ++ "/**") "*" = true) as C; [|congruence].
  apply includes_iff. exists (pre ++ "/"), "*".
  now rewrite append_assoc.
Qed.

End StringFacts.

(* ------------------------------------------------------------------ *)
(** ** The path matcher *)

Example ex_src_tree :
  isPathExcluded "src/index.ts" "src/**" false = Some true /\
  isPathExcluded "srcx/index.ts" "src/**" false = Some false /\
  isPathExcluded "src" "src/**" false = Some true.
Proof. repeat split; reflexivity. Qed.

Example ex_wild :
  wildcard_source "**/*.min.js" = "^.[^/]*/[^/]*.min.js$" /\
  isPathExcluded "app.min.js" "*.min.js" false = Some true /\
  isPathExcluded "sub/app.min.js" "*.min.js" false = Some false /\
  isPathExcluded "sub/app.min.js" "**/*.min.js" false = Some true /\
  isPathExcluded "app.min.js" "**/*.min.js" false = Some false /\
  isPathExcluded "a/b/c" "**" false = Some false.
Proof. repeat split; reflexivity. Qed.


(** What the fragment answers, every host answers. *)
Lemma fragment_answer {host : RegExpHost} (itemPath pattern : string)
    (isDirectory b : bool) :
  @isPathExcluded fragment_host itemPath pattern isDirectory = Some b ->
  isPathExcluded itemPath pattern isDirectory = Some b.
Proof.
  unfold isPathExcluded. destruct (endsWith pattern "/**"); [auto|].
  destruct (negb (includes pattern "*")); [auto|].
  cbv zeta. cbn [test_source fragment_host]. unfold fragment_test.
  destruct (RegExp (wildcard_source pattern)) as [r|] eqn:E; [|discriminate].
  intros [= <-]. apply (test_source_fragment _ _ E).
Qed.

Lemma tree_pattern_branch {host : RegExpHost} (dirName itemPath : string) (isDirectory : bool) :
  isPathExcluded itemPath (dirName ++ "/**") isDirectory
  = Some (String.eqb itemPath dirName || startsWith itemPath (dirName ++ "/")).
Proof.
  unfold isPathExcluded.
  assert (endsWith (dirName ++ "/**") "/**" = true) as ->
    by (apply endsWith_iff; now exists dirName).
  change 3%nat with (String.length "/**").
  rewrite slice_0_neg_append. now destruct (negb (includes dirName "/")).
Qed.

(** C7. For a pattern ending in "/**", that is [dirName ++ "/**"],
    [isPathExcluded] answers true exactly when the path is [dirName] or
    starts with [dirName ++ "/"], whether or not [dirName] holds a
    slash; with "src/**", "src/index.ts" and "src" match and
    "srcx/index.ts" does not. *)
Theorem tree_pattern_is_prefix_test {host : RegExpHost} :
  (forall dirName itemPath isDirectory,
      isPathExcluded itemPath (dirName ++ "/**") isDirectory = Some true <->
      itemPath = dirName \/ exists rest, itemPath = dirName ++ "/" ++ rest)
  /\ (forall dirName itemPath isDirectory,
      isPathExcluded itemPath (dirName ++ "/**") isDirectory = Some false <->
      ~ (itemPath = dirName \/ exists rest, itemPath = dirName ++ "/" ++ rest))
  /\ isPathExcluded "src/index.ts" "src/**" false = Some true
  /\ isPathExcluded "src" "src/**" false = Some true
  /\ isPathExcluded "srcx/index.ts" "src/**" false = Some false.
Proof.
  assert (forall dirName itemPath,
             String.eqb itemPath dirName || startsWith itemPath (dirName ++ "/")
             = true <->
             itemPath = dirName \/ exists rest, itemPath = dirName ++ "/" ++ rest)
    as K.
  { intros d p. rewrite orb_true_iff, String.eqb_eq, startsWith_iff.
    split; intros [H | [rest H]]; auto; right; exists rest;
      [now rewrite <- append_assoc | now rewrite append_assoc]. }
  split; [|split; [|repeat split; reflexivity]].
  - intros d p b. rewrite tree_pattern_branch, <- K. split; [now intros [= ->] | now intros ->].
  - intros d p b. rewrite tree_pattern_branch, <- K. split.
    + intros [= ->]. discriminate.
    + intros H. f_equal. now apply not_true_is_false.
Qed.

Lemma literal_branch {host : RegExpHost} (pattern itemPath : string)
    (isDirectory : bool) :
  includes pattern "*" = false ->
  isPathExcluded itemPath pattern isDirectory = Some (String.eqb itemPath pattern)
  /\ (isPathExcluded itemPath pattern isDirectory = Some true <->
      itemPath = pattern).
Proof.
  intros H.
  assert (isPathExcluded itemPath pattern isDirectory
          = Some (String.eqb itemPath pattern)) as E.
  { unfold isPathExcluded.
    now rewrite (no_star_no_tree_suffix _ H), H. }
  split; [exact E|]. rewrite E, <- String.eqb_eq.
  split; [now intros [= ->] | now intros ->].
Qed.

(** C8. For a pattern that holds no star, [isPathExcluded] answers
    true exactly when the path is the pattern itself;
    "package-lock.json" matches that path and not
    "sub/package-lock.json". *)
Theorem literal_pattern_is_equality {host : RegExpHost} :
  forall pattern itemPath isDirectory,
    includes pattern "*" = false ->
    isPathExcluded itemPath pattern isDirectory = Some (String.eqb itemPath pattern)
    /\ (isPathExcluded itemPath pattern isDirectory = Some true <->
        itemPath = pattern).
Proof.
  intros pattern p b H. now apply literal_branch.
Qed.

Lemma literal_pattern_is_equality_witness :
  includes "package-lock.json" "*" = false
  /\ isPathExcluded "package-lock.json" "package-lock.json" false = Some true
  /\ isPathExcluded "sub/package-lock.json" "package-lock.json" false = Some false.
Proof.
  split; [reflexivity|]. split.
  - exact (proj1 (literal_pattern_is_equality "package-lock.json"
                    "package-lock.json" false eq_refl)).
  - exact (proj1 (literal_pattern_is_equality "package-lock.json"
                    "sub/package-lock.json" false eq_refl)).
Defined.

(* ------------------------------------------------------------------ *)
(** ** The size estimate *)

Section Estimate.

Context {host : RegExpHost}.

Lemma sumZ_cons {A : Type} (f : A -> Z) (x : A) (l : list A) :
  sumZ f (x :: l) = f x + sumZ f l.
Proof. reflexivity. Qed.

Lemma sumZ_nil {A : Type} (f : A -> Z) : sumZ f [] = 0.
Proof. reflexivity. Qed.


Lemma pattern_compiles_returns (pattern itemPath : string) (isDirectory : bool) :
  pattern_compiles pattern = true ->
  isPathExcluded itemPath pattern isDirectory = Some (matchesb itemPath pattern).
Proof.
  unfold pattern_compiles, matchesb, isPathExcluded. intros H.
  destruct (endsWith pattern "/**").
  - now destruct (negb (includes (slice_0_neg pattern 3) "/")).
  - destruct (negb (includes pattern "*")); [reflexivity|].
    cbn [orb] in H. cbv zeta.
    destruct (RegExp (wildcard_source pattern)) as [r|] eqn:E; [|discriminate].
    now rewrite (test_source_fragment _ _ E).
Qed.

Lemma isExcluded_some (itemPath : string) (pats : list string) (isDirectory : bool) :
  forallb pattern_compiles pats = true ->
  isExcluded itemPath pats isDirectory = Some (existsb (matchesb itemPath) pats).
Proof.
  induction pats as [|p pats IH]; simpl; [reflexivity|].
  intros H. apply andb_true_iff in H as [Hp Hr].
  rewrite (pattern_compiles_returns _ _ _ Hp).
  destruct (matchesb itemPath p); [reflexivity | now apply IH].
Qed.










End Estimate.




(* ------------------------------------------------------------------ *)
(** ** Reconciliation *)

Local Open Scope list_scope.

Section Reconcile.

Lemma Array_includes_In (xs : list string) (x : string) :
  Array_includes xs x = true <-> In x xs.
Proof.
  unfold Array_includes. rewrite existsb_exists. split.
  - intros [y [Hy E]]. apply String.eqb_eq in E. now subst.
  - intros H. exists x. split; [exact H | apply String.eqb_refl].
Qed.

Lemma Array_includes_not_In (xs : list string) (x : string) :
  Array_includes xs x = false <-> ~ In x xs.
Proof.
  rewrite <- Array_includes_In. destruct (Array_includes xs x); split; congruence.
Qed.

Lemma combine_seq_snoc {A : Type} (xs : list A) (x : A) (k : nat) :
  combine (seq k (List.length (xs ++ [x]))) (xs ++ [x])
  = combine (seq k (List.length xs)) xs ++ [((k + List.length xs)%nat, x)].
Proof.
  revert k. induction xs as [|y xs IH]; intros k; simpl.
  - now rewrite Nat.add_0_r.
  - f_equal. rewrite IH. do 3 f_equal. lia.
Qed.

Lemma indexed_snoc {A : Type} (xs : list A) (x : A) :
  indexed (xs ++ [x]) = indexed xs ++ [(List.length xs, x)].
Proof. unfold indexed. now rewrite combine_seq_snoc. Qed.

Lemma indexed_bound {A : Type} (xs : list A) (i : nat) (x : A) :
  In (i, x) (indexed xs) -> (i < List.length xs)%nat /\ nth_error xs i = Some x.
Proof.
  induction xs as [|y xs IH] using rev_ind; [intros []|].
  rewrite indexed_snoc, in_app_iff, length_app. simpl.
  intros [H | [[= <- <-] | []]].
  - destruct (IH H) as [L N]. split; [lia|].
    now rewrite nth_error_app1.
  - split; [lia|]. now rewrite nth_error_app2, Nat.sub_diag.
Qed.

Lemma map_snd_indexed {A : Type} (l : list A) : map snd (indexed l) = l.
Proof.
  induction l as [|x l IH] using rev_ind; [reflexivity|].
  now rewrite indexed_snoc, map_app, IH.
Qed.



Lemma first_occurrences_snoc (xs : list string) (x : string) :
  first_occurrences (xs ++ [x])
  = if Array_includes xs x then first_occurrences xs
    else first_occurrences xs ++ [x].
Proof.
  unfold first_occurrences. rewrite indexed_snoc, filter_app, map_app.
  assert (filter (fun ix : nat * string =>
                    negb (Array_includes (firstn (fst ix) (xs ++ [x])) (snd ix)))
                 (indexed xs)
          = filter (fun ix : nat * string =>
                      negb (Array_includes (firstn (fst ix) xs) (snd ix)))
                   (indexed xs)) as ->.
  { apply filter_ext_in. intros [i y] H. apply indexed_bound in H as [L _].
    simpl. rewrite firstn_app.
    replace (i - List.length xs)%nat with 0%nat by lia.
    simpl. now rewrite app_nil_r. }
  simpl. rewrite firstn_app, firstn_all, Nat.sub_diag. simpl.
  rewrite app_nil_r.
  destruct (Array_includes xs x); simpl; [now rewrite app_nil_r | reflexivity].
Qed.

Lemma first_occurrences_In (xs : list string) (x : string) :
  In x (first_occurrences xs) <-> In x xs.
Proof.
  induction xs as [|y xs IH] using rev_ind; [reflexivity|].
  rewrite first_occurrences_snoc, in_app_iff.
  destruct (Array_includes xs y) eqn:E.
  - apply Array_includes_In in E. rewrite IH. simpl.
    split; [tauto | intros [H | [<- | []]]; assumption].
  - rewrite in_app_iff, IH. reflexivity.
Qed.

Lemma first_occurrences_NoDup (xs : list string) : NoDup (first_occurrences xs).
Proof.
  induction xs as [|y xs IH] using rev_ind; [constructor|].
  rewrite first_occurrences_snoc.
  destruct (Array_includes xs y) eqn:E; [exact IH|].
  apply Array_includes_not_In in E.
  apply NoDup_rev in IH. rewrite <- (rev_involutive (_ ++ _)).
  apply NoDup_rev. rewrite rev_app_distr. simpl. constructor; [|exact IH].
  rewrite <- in_rev, first_occurrences_In. exact E.
Qed.

Lemma Array_from_Set_first_occurrences (xs : list string) :
  Array_from_Set xs = first_occurrences xs.
Proof.
  unfold Array_from_Set.
  induction xs as [|y xs IH] using rev_ind; [reflexivity|].
  rewrite fold_left_app, IH, first_occurrences_snoc. simpl. unfold Set_add.
  assert (Array_includes (first_occurrences xs) y = Array_includes xs y) as ->;
    [|reflexivity].
  destruct (Array_includes xs y) eqn:E.
  - apply Array_includes_In, first_occurrences_In, Array_includes_In, E.
  - apply Array_includes_not_In. rewrite first_occurrences_In.
    now apply Array_includes_not_In.
Qed.

Lemma unselected_In (auto selected : list string) (x : string) :
  In x (unselectedAutoExcludes auto selected) <-> In x auto /\ ~ In x selected.
Proof.
  unfold unselectedAutoExcludes. rewrite filter_In, negb_true_iff.
  now rewrite Array_includes_not_In.
Qed.

End Reconcile.

(** C5. The list handed to the command is the concatenation of the
    default, the extra and the selected excludes without the values
    that occur earlier in it (so without duplicates and with the same
    members), and the values reported as un-selected are the
    auto-excluded values absent from the selection, in their order;
    with auto-excluded A and B and the selection A alone, B is the
    one reported and, being in neither the default nor the extra
    excludes, is not in the final list. *)
Theorem reconcile_dedup_and_overridden :
  forall defaultExcludes extraExcludes selectedExcludes autoExcluded : list string,
    dedupedExcludes defaultExcludes extraExcludes selectedExcludes
    = first_occurrences (defaultExcludes ++ extraExcludes ++ selectedExcludes)
    /\ NoDup (dedupedExcludes defaultExcludes extraExcludes selectedExcludes)
    /\ (forall x, In x (dedupedExcludes defaultExcludes extraExcludes selectedExcludes)
                  <-> In x defaultExcludes \/ In x extraExcludes
                      \/ In x selectedExcludes)
    /\ unselectedAutoExcludes autoExcluded selectedExcludes
       = filter (fun x => negb (Array_includes selectedExcludes x)) autoExcluded
    /\ (forall x, In x (unselectedAutoExcludes autoExcluded selectedExcludes)
                  <-> In x autoExcluded /\ ~ In x selectedExcludes)
    /\ (forall x, In (log_warning ("  + " ++ x)%string)
                     (processUnselectedAutoExcludes autoExcluded selectedExcludes)
                  <-> In x autoExcluded /\ ~ In x selectedExcludes)
    /\ (forall A B : string,
           A <> B -> ~ In B defaultExcludes -> ~ In B extraExcludes ->
           unselectedAutoExcludes [A; B] [A] = [B]
           /\ ~ In B (dedupedExcludes defaultExcludes extraExcludes [A])).
Proof.
  intros d e s auto. unfold dedupedExcludes, finalExcludes.
  rewrite !Array_from_Set_first_occurrences.
  split; [reflexivity|]. split; [apply first_occurrences_NoDup|].
  split; [intros x; now rewrite first_occurrences_In, !in_app_iff|].
  split; [reflexivity|]. split; [apply unselected_In|]. split.
  - intros x. rewrite <- unselected_In. unfold processUnselectedAutoExcludes.
    destruct (unselectedAutoExcludes auto s) as [|u us]; [reflexivity|].
    cbn [List.length Nat.ltb Nat.leb]. split.
    + intros [H | H]; [discriminate H|].
      apply in_map_iff in H as [y [[= ->] Hy]]. exact Hy.
    + intros H. right. apply in_map_iff. now exists x.
  - intros A B NE Hd He. split.
    + unfold unselectedAutoExcludes, Array_includes. simpl.
      rewrite String.eqb_refl. simpl.
      assert (String.eqb B A = false) as -> by (apply String.eqb_neq; congruence).
      reflexivity.
    + rewrite Array_from_Set_first_occurrences, first_occurrences_In, !in_app_iff.
      simpl. intros [H | [H | [H | []]]]; auto.
Qed.

Lemma reconcile_dedup_and_overridden_witness :
  unselectedAutoExcludes ["big.bin"; "data.csv"] ["big.bin"] = ["data.csv"]
  /\ ~ In "data.csv" (dedupedExcludes ["docs/**"] ["tmp/**"] ["big.bin"]).
Proof.
  apply (proj2 (proj2 (proj2 (proj2 (proj2 (proj2
    (reconcile_dedup_and_overridden ["docs/**"] ["tmp/**"] ["big.bin"]
       ["big.bin"; "data.csv"])))))) "big.bin" "data.csv").
  - discriminate.
  - simpl. intros [H | []]. discriminate.
  - simpl. intros [H | []]. discriminate.
Defined.

(* ------------------------------------------------------------------ *)
(** ** The target of the planner in doubles and over the rationals *)

Section TargetInDoubles.




(** Beyond that bound the two tests part: 95% of 4812800000001024 is
    4572160000000972.8, and the double product is 4572160000000973. *)
Lemma above_target_parts :
  targetSize_double 4812800000001024 = 4572160000000973 * 2 ^ 53
  /\ above_target_double 4572160000000973 4812800000001024 = false
  /\ above_target 4572160000000973 (targetSize 4812800000001024) = true.
Proof. repeat split; reflexivity. Qed.

End TargetInDoubles.

(* ------------------------------------------------------------------ *)
(** ** The sort *)

Section SortFacts.
Context {A : Type} (key : A -> Z).

Lemma sort_insert_perm (x : A) (l : list A) :
  Permutation (sort_insert (desc_by key) x l) (x :: l).
Proof.
  induction l as [|y l IH]; simpl; [constructor; constructor|].
  destruct (desc_by key x y <=? 0); [apply Permutation_refl|].
  eapply perm_trans; [apply perm_skip, IH | apply perm_swap].
Qed.

Lemma Array_sort_perm (l : list A) : Permutation (Array_sort (desc_by key) l) l.
Proof.
  induction l as [|x l IH]; simpl; [constructor|].
  eapply perm_trans; [apply sort_insert_perm | now apply perm_skip].
Qed.

Lemma sort_insert_sorted (x : A) (l : list A) :
  StronglySorted (fun a b => key b <= key a) l ->
  StronglySorted (fun a b => key b <= key a) (sort_insert (desc_by key) x l).
Proof.
  induction 1 as [|y l S IH F]; simpl; [repeat constructor|].
  unfold desc_by at 1. destruct (key y - key x <=? 0) eqn:E.
  - apply Z.leb_le in E. constructor; [now constructor|].
    constructor; [lia|]. eapply Forall_impl; [|exact F].
    simpl. intros; lia.
  - apply Z.leb_gt in E. constructor; [exact IH|].
    eapply Permutation_Forall;
      [apply Permutation_sym, sort_insert_perm|].
    constructor; [lia | exact F].
Qed.

Lemma Array_sort_sorted (l : list A) :
  StronglySorted (fun a b => key b <= key a) (Array_sort (desc_by key) l).
Proof.
  induction l as [|x l IH]; simpl; [constructor | now apply sort_insert_sorted].
Qed.

(** Entries of equal key keep their relative order. *)
Lemma sort_insert_stable (s : Z) (x : A) (l : list A) :
  filter (fun a => key a =? s) (sort_insert (desc_by key) x l)
  = filter (fun a => key a =? s) (x :: l).
Proof.
  induction l as [|y l IH]; [reflexivity|].
  cbn [sort_insert]. unfold desc_by at 1.
  destruct (key y - key x <=? 0) eqn:E; [reflexivity|].
  apply Z.leb_gt in E. cbn [filter] in *. rewrite IH.
  destruct (key x =? s) eqn:Ex; [|reflexivity].
  apply Z.eqb_eq in Ex.
  assert ((key y =? s) = false) as -> by (apply Z.eqb_neq; lia).
  reflexivity.
Qed.

Lemma Array_sort_stable (s : Z) (l : list A) :
  filter (fun a => key a =? s) (Array_sort (desc_by key) l)
  = filter (fun a => key a =? s) l.
Proof.
  induction l as [|x l IH]; [reflexivity|].
  cbn [Array_sort]. rewrite sort_insert_stable. cbn [filter].
  now rewrite IH.
Qed.
End SortFacts.

(* ------------------------------------------------------------------ *)
(** ** The planner *)

Section Planner.

Context {host : RegExpHost}.

Lemma above_target_iff (remaining sizeLimit : Z) :
  above_target remaining (targetSize sizeLimit) = true
  <-> exceeds_target remaining sizeLimit.
Proof.
  unfold above_target, exceeds_target, targetSize.
  rewrite negb_true_iff, <- not_true_iff_false, Qle_bool_iff.
  split; [apply Qnot_le_lt | apply Qlt_not_le].
Qed.

Lemma above_target_false_iff (remaining sizeLimit : Z) :
  above_target remaining (targetSize sizeLimit) = false
  <-> ~ exceeds_target remaining sizeLimit.
Proof.
  rewrite <- above_target_iff.
  destruct (above_target remaining (targetSize sizeLimit)); split; congruence.
Qed.

(** The loop takes a prefix of the list it walks: every candidate of
    the prefix was taken with the remaining size above the target, and
    the walk ended on the first candidate met at or below it. *)
Lemma exclude_loop_prefix (sizeLimit : Z) (files : list (nat * Choice.t)) :
  forall (remaining : Z) (excluded : list string) (marked : list nat),
  exists k : nat,
    (k <= List.length files)%nat
    /\ exclude_loop (targetSize sizeLimit) files remaining excluded marked
       = (excluded ++ map (fun ic => Choice.value (snd ic)) (firstn k files),
          marked ++ map fst (firstn k files),
          remaining - total_size (firstn k files))
    /\ (forall j, (j < k)%nat ->
                  exceeds_target (remaining - total_size (firstn j files)) sizeLimit)
    /\ (k = List.length files
        \/ ~ exceeds_target (remaining - total_size (firstn k files)) sizeLimit).
Proof.
  induction files as [|[i file] files IH]; intros remaining excluded marked.
  - exists 0%nat. simpl. rewrite !app_nil_r. unfold total_size.
    rewrite sumZ_nil, Z.sub_0_r. repeat split; [lia | intros j; lia | now left].
  - cbn [exclude_loop].
    destruct (above_target remaining (targetSize sizeLimit)) eqn:E.
    + destruct (IH (remaining - Choice.size file)
                  (excluded ++ [Choice.value file]) (marked ++ [i]))
        as [k [L [R [W S]]]].
      exists (Datatypes.S k). cbn [firstn map List.length].
      rewrite R, <- !app_assoc. cbn [app].
      assert (forall l, remaining - total_size ((i, file) :: l)
                        = remaining - Choice.size file - total_size l) as T
        by (intros l; unfold total_size; rewrite sumZ_cons; simpl; lia).
      rewrite T. repeat split.
      * lia.
      * intros [|j] Hj.
        -- unfold total_size. simpl. rewrite sumZ_nil, Z.sub_0_r.
           now apply above_target_iff.
        -- cbn [firstn]. rewrite T. apply W. lia.
      * destruct S as [-> | S]; [now left | right]. exact S.
    + exists 0%nat. simpl. rewrite !app_nil_r. unfold total_size.
      rewrite sumZ_nil, Z.sub_0_r. repeat split; [lia | intros j; lia | right].
      now apply above_target_false_iff.
Qed.

Lemma In_firstn {A : Type} (k : nat) (l : list A) (x : A) :
  In x (firstn k l) -> In x l.
Proof.
  intros H. rewrite <- (firstn_skipn k l). apply in_or_app. now left.
Qed.



Lemma candidates_In (choices : list Choice.t) (ic : nat * Choice.t) :
  In ic (candidates choices) <->
  In ic (indexed choices) /\ Choice.checked (snd ic) = false.
Proof.
  unfold candidates. split.
  - intros H.
    apply (Permutation_in _ (Array_sort_perm (fun ic => Choice.size (snd ic)) _))
      in H.
    apply filter_In in H as [H U]. split; [exact H|].
    now apply negb_true_iff in U.
  - intros [H U].
    apply (Permutation_in _
             (Permutation_sym
                (Array_sort_perm (fun ic => Choice.size (snd ic)) _))).
    apply filter_In. split; [exact H|]. now apply negb_true_iff.
Qed.

(** The marks of the planner, read by value. *)
Lemma marked_by_value (choices : list Choice.t) (k : nat) (i : nat)
    (c : Choice.t) :
  NoDup (map Choice.value choices) ->
  In (i, c) (indexed choices) ->
  existsb (Nat.eqb i) (map fst (firstn k (candidates choices)))
  = Array_includes
      (map (fun ic => Choice.value (snd ic)) (firstn k (candidates choices)))
      (Choice.value c).
Proof.
  intros ND Hi. apply indexed_bound in Hi as [Li Ni].
  destruct (Array_includes _ (Choice.value c)) eqn:E.
  - apply Array_includes_In, in_map_iff in E as [[j c'] [V Hj]].
    cbn [snd] in V. apply existsb_exists. exists j. split.
    + apply in_map_iff. now exists (j, c').
    + apply Nat.eqb_eq.
      apply In_firstn, candidates_In in Hj as [Hj _].
      apply indexed_bound in Hj as [Lj Nj].
      apply (proj1 (NoDup_nth_error _) ND);
        [now rewrite length_map|].
      rewrite !nth_error_map, Ni, Nj. cbn [option_map]. now rewrite V.
  - apply not_true_iff_false. intros X.
    apply existsb_exists in X as [j [Hj X]]. apply Nat.eqb_eq in X. subst j.
    apply in_map_iff in Hj as [[j c'] [<- Hj]]. cbn [fst] in *.
    apply Array_includes_not_In in E. apply E. apply in_map_iff.
    exists (j, c'). split; [|exact Hj]. cbn [snd].
    apply In_firstn, candidates_In in Hj as [Hj _].
    apply indexed_bound in Hj as [_ Nj]. congruence.
Qed.

Lemma mark_choices_by_value (choices : list Choice.t) (k : nat) :
  NoDup (map Choice.value choices) ->
  mark_choices (map fst (firstn k (candidates choices))) choices
  = map (fun c =>
           if Array_includes
                (map (fun ic => Choice.value (snd ic))
                   (firstn k (candidates choices)))
                (Choice.value c)
           then Choice.check c else c)
      choices.
Proof.
  intros ND. unfold mark_choices.
  match goal with
  | |- _ = map ?g choices =>
      transitivity (map g (map snd (indexed choices)));
        [|now rewrite map_snd_indexed]
  end.
  rewrite map_map.
  apply map_ext_in. intros [i c] Hi. cbn [fst snd].
  now rewrite (marked_by_value choices k i c ND Hi).
Qed.




(** The call when auto-exclusion is off or the size is within the limit. *)
Lemma autoExcludeFiles_off (choices : list Choice.t) (initialSize sizeLimit : Z)
    (autoExclude : bool) :
  autoExclude = false \/ initialSize <= sizeLimit ->
  autoExcludeFiles choices initialSize sizeLimit autoExclude
  = mkAutoExclude [] choices [].
Proof.
  intros H. unfold autoExcludeFiles.
  assert (autoExclude && (sizeLimit <? initialSize) = false) as ->; [|reflexivity].
  destruct H as [-> | H]; [reflexivity|].
  apply andb_false_iff. right. apply Z.ltb_ge. exact H.
Qed.

(** The call when auto-exclusion is on and the size is above the limit. *)
Lemma autoExcludeFiles_on (choices : list Choice.t) (initialSize sizeLimit : Z) :
  sizeLimit < initialSize ->
  exists k : nat,
    (k <= List.length (candidates choices))%nat
    /\ autoExcludeFiles choices initialSize sizeLimit true
       = mkAutoExclude
           (map (fun ic => Choice.value (snd ic)) (firstn k (candidates choices)))
           (mark_choices (map fst (firstn k (candidates choices))) choices)
           (auto_report
              (map (fun ic => Choice.value (snd ic))
                 (firstn k (candidates choices)))
              (initialSize - total_size (firstn k (candidates choices))))
    /\ (forall j, (j < k)%nat ->
           exceeds_target
             (initialSize - total_size (firstn j (candidates choices))) sizeLimit)
    /\ (k = List.length (candidates choices)
        \/ ~ exceeds_target
               (initialSize - total_size (firstn k (candidates choices)))
               sizeLimit).
Proof.
  intros L. unfold autoExcludeFiles.
  apply Z.ltb_lt in L. rewrite L. cbn [andb]. fold (candidates choices).
  destruct (exclude_loop_prefix sizeLimit (candidates choices) initialSize [] [])
    as [k [Lk [R [W S]]]].
  exists k. rewrite R. cbn [app]. auto.
Qed.


End Planner.



(* ------------------------------------------------------------------ *)
(** ** The planner against the estimator *)

Section Agreement.

Context {host : RegExpHost}.

Lemma isExcluded_app (itemPath : string) (ps qs : list string) (d : bool) :
  isExcluded itemPath (ps ++ qs) d
  = match isExcluded itemPath ps d with
    | Some false => isExcluded itemPath qs d
    | other => other
    end.
Proof.
  induction ps as [|p ps IH]; [reflexivity|]. cbn [app isExcluded].
  destruct (isPathExcluded itemPath p d) as [[|]|]; auto.
Qed.



Lemma mapM_map {A B C : Type} (f : A -> option B) (g : B -> C) (h : A -> C)
    (l : list A) (r : list B) :
  (forall x y, f x = Some y -> g y = h x) ->
  mapM f l = Some r -> map g r = map h l.
Proof.
  intros K. revert r. induction l as [|x l IH]; intros r H; cbn [mapM] in H.
  - now injection H as <-.
  - destruct (f x) as [y|] eqn:E; [|discriminate].
    destruct (mapM f l) as [ys|]; [|discriminate].
    injection H as <-. cbn [map]. now rewrite (K _ _ E), (IH ys eq_refl).
Qed.






End Agreement.

Section AgreementMain.

Context {host : RegExpHost}.

Variables (items : list Item.t) (pats : list string).
Hypothesis distinct_paths : NoDup (map Item.path items).
Hypothesis plain_paths :
  forall item, In item items -> includes (Item.path item) "*" = false.





End AgreementMain.



(* ------------------------------------------------------------------ *)
(** ** The wildcard branch of the matcher *)

Section Wildcard.

Context {host : RegExpHost}.

Local Open Scope string_scope.

Lemma includes_cons_char (a c : ascii) (s : string) :
  includes (String a s) (String c "") = Ascii.eqb a c || includes s (String c "").
Proof. cbn [includes startsWith]. now rewrite andb_true_r. Qed.

Lemma replace_star_star_id (pattern by_ : string) :
  includes pattern "**" = false -> replace_star_star pattern by_ = pattern.
Proof.
  induction pattern as [|c rest IH]; [reflexivity|].
  cbn [includes replace_star_star]. intros H.
  apply orb_false_iff in H as [H1 H2].
  destruct (Ascii.eqb c "*") eqn:C.
  - destruct rest as [|c' rest']; [reflexivity|].
    cbn [startsWith] in H1. rewrite C in H1. cbn [andb] in H1.
    rewrite andb_true_r in H1. rewrite H1. now rewrite (IH H2).
  - now rewrite (IH H2).
Qed.

Lemma not_syntax_char (c : ascii) :
  is_syntax_char c = false ->
  Ascii.eqb c "^" = false /\ Ascii.eqb c "$" = false
  /\ Ascii.eqb c "." = false /\ Ascii.eqb c "[" = false
  /\ Ascii.eqb c "*" = false.
Proof.
  unfold is_syntax_char. cbn [existsb]. intros H.
  repeat (apply orb_false_iff in H as [? H]). auto.
Qed.

(** Reading the source text of a plain pattern yields its terms. *)
Lemma parse_plain (pattern : string) :
  plain pattern = true ->
  forall acc rest,
    parse Top acc (replace_star pattern "[^/]*" ++ rest)
    = parse Top (rev (terms_of pattern) ++ acc)%list rest.
Proof.
  induction pattern as [|c p IH]; [reflexivity|].
  cbn [plain]. intros H acc rest. apply andb_true_iff in H as [Hc Hp].
  cbn [replace_star terms_of rev]. rewrite <- app_assoc. cbn [app].
  unfold term_of. destruct (Ascii.eqb c "*") eqn:Cs.
  - rewrite append_assoc. cbn. now rewrite (IH Hp).
  - cbn [append parse]. unfold plain_char in Hc. rewrite Cs in Hc.
    cbn [orb] in Hc. destruct (Ascii.eqb c ".") eqn:Cd.
    + apply Ascii.eqb_eq in Cd. subst c. cbn. now rewrite (IH Hp).
    + cbn [orb] in Hc. apply negb_true_iff in Hc. rewrite Hc.
      destruct (not_syntax_char _ Hc) as [-> [-> [_ [-> _]]]].
      rewrite Cs. now rewrite (IH Hp).
Qed.

Lemma RegExp_plain (pattern : string) :
  plain pattern = true -> includes pattern "**" = false ->
  RegExp (wildcard_source pattern)
  = Some (Bol :: terms_of pattern ++ [Eol])%list.
Proof.
  intros P N. unfold RegExp, wildcard_source.
  rewrite (replace_star_star_id _ _ N). cbn [append parse Ascii.eqb].
  change (parse Top [Bol] (replace_star pattern "[^/]*" ++ "$")
          = Some (Bol :: terms_of pattern ++ [Eol])%list).
  rewrite (parse_plain _ P). cbn. rewrite rev_app_distr, rev_involutive.
  reflexivity.
Qed.

Lemma run_star_nil (cs : charset) (ts : regex) (st : bool) :
  run (Star cs :: ts) st "" = run ts st "".
Proof. reflexivity. Qed.

Lemma run_star_cons (cs : charset) (ts : regex) (st : bool) (c : ascii)
    (s : string) :
  run (Star cs :: ts) st (String c s)
  = (accepts cs c && run (Star cs :: ts) false s) || run ts st (String c s).
Proof. reflexivity. Qed.

Lemma search_bol_later (ts : regex) (s : string) :
  search (Bol :: ts) false s = false.
Proof. induction s as [|c s IH]; cbn [search run andb orb]; auto. Qed.

(** Anchored at the start, the search only tries the first position. *)
Lemma test_anchored (ts : regex) (s : string) :
  RegExp_test (Bol :: ts) s = run ts true s.
Proof.
  unfold RegExp_test. destruct s as [|c s]; cbn [search run andb].
  - now rewrite orb_false_r.
  - now rewrite search_bol_later, orb_false_r.
Qed.

Lemma run_no_bol (ts : regex) :
  no_bol ts -> forall st st' s, run ts st s = run ts st' s.
Proof.
  induction 1 as [|t ts Ht F IH]; [reflexivity|].
  destruct t as [| |cs|cs]; [congruence| | |].
  - intros st st' [|c s]; cbn [run]; auto.
  - intros st st' [|c s]; cbn [run]; auto.
  - intros st st' s. revert st st'.
    induction s as [|c s IHs]; intros st st'.
    + rewrite !run_star_nil. apply IH.
    + rewrite !run_star_cons. now rewrite (IH st st').
Qed.

Lemma no_bol_terms_of (pattern : string) : no_bol (terms_of pattern ++ [Eol])%list.
Proof.
  induction pattern as [|c p IH]; cbn [terms_of app].
  - repeat constructor. discriminate.
  - constructor; [|exact IH]. unfold term_of.
    destruct (Ascii.eqb c "*"), (Ascii.eqb c "."); discriminate.
Qed.

Lemma accepts_not_slash (c : ascii) :
  accepts (CsClass true ["/"%char]) c = negb (Ascii.eqb c "/").
Proof. cbn. now rewrite orb_false_r. Qed.

Lemma run_star_intro (ts : regex) (segment rest : string) :
  no_bol ts -> includes segment "/" = false -> run ts false rest = true ->
  run (Star (CsClass true ["/"%char]) :: ts) false (segment ++ rest) = true.
Proof.
  intros NB. induction segment as [|c seg IH]; intros H R.
  - cbn [append]. destruct rest as [|c r].
    + now rewrite run_star_nil.
    + rewrite run_star_cons, R. apply orb_true_r.
  - rewrite includes_cons_char in H. apply orb_false_iff in H as [Hc Hs].
    cbn [append]. rewrite run_star_cons, accepts_not_slash, Hc, (IH Hs R).
    reflexivity.
Qed.

Lemma run_star_elim (ts : regex) (s : string) :
  run (Star (CsClass true ["/"%char]) :: ts) false s = true ->
  exists segment rest,
    s = segment ++ rest /\ includes segment "/" = false
    /\ run ts false rest = true.
Proof.
  induction s as [|c s IH].
  - rewrite run_star_nil. intros R. now exists "", "".
  - rewrite run_star_cons, accepts_not_slash. intros R.
    apply orb_true_iff in R as [R | R].
    + apply andb_true_iff in R as [Hc R]. apply negb_true_iff in Hc.
      destruct (IH R) as [seg [rest [-> [Hs Hr]]]].
      exists (String c seg), rest. rewrite includes_cons_char, Hc, Hs. auto.
    + exists "", (String c s). auto.
Qed.

(** The terms of a plain pattern accept what [unescaped_glob] describes. *)
Lemma run_terms_glob (pattern : string) :
  forall s, run (terms_of pattern ++ [Eol])%list false s = true
            <-> unescaped_glob pattern s.
Proof.
  induction pattern as [|c p IH]; intros s.
  - cbn [terms_of app run]. destruct s as [|a s]; split; intros H.
    + constructor.
    + reflexivity.
    + discriminate.
    + inversion H.
  - cbn [terms_of app]. unfold term_of.
    destruct (Ascii.eqb_spec c "*") as [-> | Cs].
    { split.
      - intros R. apply run_star_elim in R as [seg [rest [-> [Hs Hr]]]].
        constructor; [exact Hs | now apply IH].
      - intros G. inversion G as [|p' seg rest Hs Hg| |p' c' rest N1 N2 Hg];
          subst; [|congruence].
        apply run_star_intro; [apply no_bol_terms_of | exact Hs | now apply IH]. }
    destruct (Ascii.eqb_spec c ".") as [-> | Cd].
    { cbn [run]. destruct s as [|a s].
      - split; [discriminate | intros G; inversion G].
      - cbn [accepts]. rewrite andb_true_iff, negb_true_iff, IH. split.
        + intros [L G]. now constructor.
        + intros G. inversion G as [| |p' c' rest L Hg|p' c' rest N1 N2 Hg];
            subst; [auto | congruence]. }
    cbn [run]. destruct s as [|a s].
    + split; [discriminate | intros G; inversion G; subst; congruence].
    + cbn [accepts]. rewrite andb_true_iff, Ascii.eqb_eq, IH. split.
      * intros [-> G]. now constructor.
      * intros G.
        inversion G as [|p' seg rest Hs Hg|p' c' rest L Hg|p' c' rest N1 N2 Hg];
          subst; [congruence | congruence | auto].
Qed.

(** The wildcard branch on a plain pattern without two stars in a row. *)
Lemma wildcard_branch_plain (pattern itemPath : string) (isDirectory : bool) :
  plain pattern = true ->
  includes pattern "*" = true ->
  includes pattern "**" = false ->
  exists r,
    isPathExcluded itemPath pattern isDirectory = Some r
    /\ (r = true <-> unescaped_glob pattern itemPath).
Proof.
  intros P S N. unfold isPathExcluded.
  assert (endsWith pattern "/**" = false) as ->.
  { destruct (endsWith pattern "/**") eqn:E; [|reflexivity].
    apply endsWith_iff in E as [pre ->].
    assert (includes (pre ++ "/**") "**" = true) as C; [|congruence].
    apply includes_iff. exists (pre ++ "/"), "". now rewrite append_assoc. }
  rewrite S. cbn [negb]. cbv zeta.
  rewrite (test_source_fragment _ _ (RegExp_plain _ P N)).
  exists (RegExp_test (Bol :: terms_of pattern ++ [Eol])%list itemPath).
  split; [reflexivity|].
  rewrite test_anchored,
    (run_no_bol _ (no_bol_terms_of pattern) true false).
  apply run_terms_glob.
Qed.

End Wildcard.

Example spec_glob_examples :
  SpecGlob.matches "app.min.js" "*.min.js" = true
  /\ SpecGlob.matches "sub/app.min.js" "*.min.js" = false
  /\ SpecGlob.matches "sub/app.min.js" "**/*.min.js" = true
  /\ SpecGlob.matches "app.min.js" "**/*.min.js" = false.
Proof. repeat split; reflexivity. Qed.

(** C1, as the code has it. For a pattern that holds a star, no two
    stars in a row, and besides stars only dots and characters that are
    not syntax characters of the regular expressions, [isPathExcluded]
    answers, and answers true exactly when the whole path is accepted
    with each star standing for a run of characters other than the
    separator, each dot for any one character but a line terminator
    (nothing is escaped) and every other character for itself.
    "*.min.js" matches "app.min.js" and not "sub/app.min.js";
    "**/*.min.js" matches "sub/app.min.js" and, a separator being
    required, not "app.min.js". *)
Theorem wildcard_is_unescaped_glob {host : RegExpHost} :
  (forall pattern itemPath isDirectory,
      plain pattern = true ->
      includes pattern "*" = true ->
      includes pattern "**" = false ->
      exists r,
        isPathExcluded itemPath pattern isDirectory = Some r
        /\ (r = true <-> unescaped_glob pattern itemPath))
  /\ isPathExcluded "app.min.js" "*.min.js" false = Some true
  /\ isPathExcluded "sub/app.min.js" "*.min.js" false = Some false
  /\ isPathExcluded "sub/app.min.js" "**/*.min.js" false = Some true
  /\ isPathExcluded "app.min.js" "**/*.min.js" false = Some false.
Proof.
  split; [exact wildcard_branch_plain|].
  repeat split; apply fragment_answer; reflexivity.
Qed.

Lemma wildcard_is_unescaped_glob_witness :
  exists r,
    isPathExcluded "app.min.js" "*.min.js" false = Some r
    /\ (r = true <-> unescaped_glob "*.min.js" "app.min.js").
Proof.
  exact (proj1 wildcard_is_unescaped_glob "*.min.js" "app.min.js" false
           eq_refl eq_refl eq_refl).
Defined.

(** C1 as stated fails: "**/*.min.js" does not match "app.min.js"; the
    dot of "*.min.js" is not escaped, so "appXmin.js" matches although
    the escaped expression rejects it; and "**" does not match "a/b/c"
    although two stars stand for any characters in the escaped
    expression. *)
Lemma wildcard_claim_fails :
  isPathExcluded "app.min.js" "**/*.min.js" false = Some false
  /\ (isPathExcluded "appXmin.js" "*.min.js" false = Some true
      /\ SpecGlob.matches "appXmin.js" "*.min.js" = false)
  /\ (isPathExcluded "a/b/c" "**" false = Some false
      /\ SpecGlob.matches "a/b/c" "**" = true).
Proof. repeat split; reflexivity. Qed.

(* ------------------------------------------------------------------ *)
(** ** The scanner *)

Section ScanWalk.

Variable skipDirs : list string.

Local Open Scope string_scope.

Lemma scan_Dir (entries : list (string * node)) (baseDir : string) :
  scan skipDirs (Dir entries) baseDir
  = try_catch (for_of skipDirs baseDir entries)
      (fun err => warn (log_could_not_read baseDir err)).
Proof. reflexivity. Qed.

(** [scan] returns, having pushed [walk] and logged [walk_log]. *)
Lemma scan_walk (n : node) :
  forall baseDir st,
    scan skipDirs n baseDir st
    = (Returned tt,
       mkState (items st ++ walk skipDirs n baseDir)%list
               (log st ++ walk_log skipDirs n baseDir)%list).
Proof.
  induction n as [size|entries IH|err|err] using node_induction;
    intros baseDir st;
    try (cbn; rewrite app_nil_r; reflexivity).
  rewrite scan_Dir. unfold try_catch.
  assert (for_of skipDirs baseDir entries st
          = (Returned tt,
             mkState (items st ++ walk skipDirs (Dir entries) baseDir)%list
                     (log st ++ walk_log skipDirs (Dir entries) baseDir)%list))
    as ->; [|reflexivity].
  revert st. induction IH as [|[entry child] es Hc _ IHes]; intros st.
  - cbn. rewrite !app_nil_r. now destruct st.
  - cbn [walk walk_log flat_map] in *. cbn [for_of]. unfold bind at 1.
    cbn [snd] in Hc.
    assert (forall st0,
              try_catch
                (bind (lift (statSync child))
                   (fun stats =>
                      if Stats.isDirectory stats then
                        if shouldSkip skipDirs entry baseDir
                             (path_join baseDir entry) then
                          push (Item.mk (path_join baseDir entry) true 0)
                        else
                          bind (push (Item.mk (path_join baseDir entry) true
                                        (getDirSize child)))
                            (fun _ => scan skipDirs child
                                        (path_join baseDir entry))
                      else
                        push (Item.mk (path_join baseDir entry) false
                                (Stats.size stats))))
                (fun err => warn (log_could_not_access
                                    (path_join baseDir entry) err)) st0
              = (Returned tt,
                 mkState
                   (items st0
                    ++ match child with
                       | NoStat _ => []
                       | File size => [Item.mk (path_join baseDir entry) false size]
                       | Dir _ | DirUnreadable _ =>
                           if shouldSkip skipDirs entry baseDir
                                (path_join baseDir entry)
                           then [Item.mk (path_join baseDir entry) true 0]
                           else Item.mk (path_join baseDir entry) true
                                  (getDirSize child)
                                :: walk skipDirs child (path_join baseDir entry)
                       end)%list
                   (log st0
                    ++ match child with
                       | NoStat err => [log_could_not_access
                                          (path_join baseDir entry) err]
                       | File _ => []
                       | Dir _ | DirUnreadable _ =>
                           if shouldSkip skipDirs entry baseDir
                                (path_join baseDir entry)
                           then []
                           else walk_log skipDirs child (path_join baseDir entry)
                       end)%list)) as Step.
    { intros st0. unfold try_catch, bind, lift.
      destruct child as [size|es'|err|err]; cbn [statSync Stats.isDirectory
                                                   Stats.size].
      - unfold push. cbn. now rewrite app_nil_r.
      - destruct (shouldSkip skipDirs entry baseDir (path_join baseDir entry)).
        + unfold push. cbn. now rewrite app_nil_r.
        + unfold push at 1. cbn [items log]. rewrite Hc. cbn [items log].
          now rewrite <- app_assoc.
      - destruct (shouldSkip skipDirs entry baseDir (path_join baseDir entry)).
        + unfold push. cbn. now rewrite app_nil_r.
        + unfold push at 1. cbn [items log]. rewrite Hc. cbn [items log].
          now rewrite <- app_assoc.
      - unfold warn. cbn. now rewrite app_nil_r. }
    rewrite Step. rewrite IHes. cbn [items log]. now rewrite <- !app_assoc.
Qed.

(** [scanDirectory] always returns: the sorted [walk], with [walk_log]
    logged. *)
Lemma scanDirectory_walk (root : node) :
  scanDirectory root skipDirs
  = (Returned (Array_sort by_size_desc (walk skipDirs root "")),
     walk_log skipDirs root "").
Proof. unfold scanDirectory. now rewrite scan_walk. Qed.

End ScanWalk.

Lemma walk_app (skipDirs : list string) (es1 es2 : list (string * node))
    (baseDir : string) :
  walk skipDirs (Dir (es1 ++ es2)) baseDir
  = walk skipDirs (Dir es1) baseDir ++ walk skipDirs (Dir es2) baseDir.
Proof. cbn [walk]. apply flat_map_app. Qed.

Lemma walk_log_app (skipDirs : list string) (es1 es2 : list (string * node))
    (baseDir : string) :
  walk_log skipDirs (Dir (es1 ++ es2)) baseDir
  = walk_log skipDirs (Dir es1) baseDir ++ walk_log skipDirs (Dir es2) baseDir.
Proof. cbn [walk_log]. apply flat_map_app. Qed.

(** C2, as the code has it. [scanDirectory] never throws.  When the
    root cannot be listed it returns the empty sequence and logs one
    warning.  In a listing, a name on which [statSync] throws adds no
    entry and one warning, and the scan goes on with the names after
    it; a subdirectory that is not skipped and cannot be listed is
    recorded with size 0, one warning is logged, and the scan goes on
    as well. *)
Theorem scan_absorbs_failures :
  forall (skipDirs : list string),
    (forall root, exists items lines,
        scanDirectory root skipDirs = (Returned items, lines))
    /\ (forall root, (forall entries, root <> Dir entries) ->
          scanDirectory root skipDirs
          = (Returned [], [log_could_not_read "" (readdir_error root)]))
    /\ (forall before after entry err baseDir st,
          exists st1 st2,
            scan skipDirs (Dir before) baseDir st = (Returned tt, st1)
            /\ scan skipDirs (Dir after) baseDir
                 (mkState (items st1)
                    (log st1
                     ++ [log_could_not_access (path_join baseDir entry) err]))
               = (Returned tt, st2)
            /\ scan skipDirs (Dir (before ++ (entry, NoStat err) :: after))
                 baseDir st
               = (Returned tt, st2))
    /\ (forall before after entry err baseDir st,
          shouldSkip skipDirs entry baseDir (path_join baseDir entry) = false ->
          exists st1 st2,
            scan skipDirs (Dir before) baseDir st = (Returned tt, st1)
            /\ scan skipDirs (Dir after) baseDir
                 (mkState
                    (items st1 ++ [Item.mk (path_join baseDir entry) true 0])
                    (log st1
                     ++ [log_could_not_read (path_join baseDir entry) err]))
               = (Returned tt, st2)
            /\ scan skipDirs (Dir (before ++ (entry, DirUnreadable err) :: after))
                 baseDir st
               = (Returned tt, st2)).
Proof.
  intros skipDirs. split; [|split; [|split]].
  - intros root. rewrite scanDirectory_walk. eauto.
  - intros root H. rewrite scanDirectory_walk.
    destruct root as [size|entries|err|err]; try reflexivity.
    now destruct (H entries).
  - intros before after entry err baseDir st.
    do 2 eexists. split; [apply scan_walk|]. split; [apply scan_walk|].
    rewrite scan_walk. cbn [items log].
    change (before ++ (entry, NoStat err) :: after)
      with (before ++ [(entry, NoStat err)] ++ after).
    rewrite !walk_app, !walk_log_app. cbn [walk walk_log flat_map].
    cbn [app]. now rewrite <- !app_assoc.
  - intros before after entry err baseDir st S.
    do 2 eexists. split; [apply scan_walk|]. split; [apply scan_walk|].
    rewrite scan_walk. cbn [items log].
    change (before ++ (entry, DirUnreadable err) :: after)
      with (before ++ [(entry, DirUnreadable err)] ++ after).
    rewrite !walk_app, !walk_log_app. cbn [walk walk_log flat_map].
    rewrite S. cbn [app getDirSize readdir_error].
    now rewrite <- !app_assoc.
Qed.

Lemma scan_absorbs_failures_witness :
  exists st1 st2,
    scan COMMON_EXCLUDE_DIRS (Dir [("a.txt", File 3)]) "" (mkState [] [])
    = (Returned tt, st1)
    /\ scan COMMON_EXCLUDE_DIRS (Dir [("b.txt", File 4)]) ""
         (mkState (items st1 ++ [Item.mk (path_join "" "locked") true 0])
            (log st1 ++ [log_could_not_read (path_join "" "locked") "EACCES"]))
       = (Returned tt, st2)
    /\ scan COMMON_EXCLUDE_DIRS
         (Dir ([("a.txt", File 3)]
               ++ ("locked", DirUnreadable "EACCES") :: [("b.txt", File 4)]))
         "" (mkState [] [])
       = (Returned tt, st2).
Proof.
  exact (proj2 (proj2 (proj2 (scan_absorbs_failures COMMON_EXCLUDE_DIRS)))
           [("a.txt", File 3)] [("b.txt", File 4)] "locked" "EACCES" ""
           (mkState [] []) eq_refl).
Defined.

(** C2 as stated fails: a root that cannot be read is not propagated,
    the scanner returns the empty sequence after a warning; and a
    subdirectory that cannot be listed is not left out, it is recorded
    with size 0. *)
Lemma scan_claim_fails :
  scanDirectory (DirUnreadable "EACCES") COMMON_EXCLUDE_DIRS
  = (Returned [], [log_could_not_read "" "EACCES"])
  /\ scanDirectory (Dir [("locked", DirUnreadable "EACCES")]) COMMON_EXCLUDE_DIRS
     = (Returned [Item.mk "locked" true 0],
        [log_could_not_read "locked" "EACCES"]).
Proof. split; reflexivity. Qed.

(* ------------------------------------------------------------------ *)
(** ** Relative paths *)

Section Paths.

Local Open Scope string_scope.

Lemma path_join_prefix (baseDir entry : string) :
  path_join baseDir entry = join_prefix baseDir ++ entry.
Proof.
  unfold path_join, join_prefix. destruct (String.eqb baseDir "");
    [reflexivity | now rewrite append_assoc].
Qed.

Lemma append_cancel_l (a x y : string) : a ++ x = a ++ y -> x = y.
Proof. induction a as [|c a IH]; cbn; [auto | intros [= H]; auto]. Qed.

Lemma append_eq_nil (a b : string) : a ++ b = "" -> a = "" /\ b = "".
Proof. destruct a; cbn; [auto | discriminate]. Qed.

Lemma includes_slash_append (a b : string) :
  includes (a ++ "/" ++ b) "/" = true.
Proof. apply includes_iff. now exists a, b. Qed.


Lemma name_ok_iff (name : string) :
  name_ok name = true <-> includes name "/" = false /\ name <> "".
Proof.
  unfold name_ok. rewrite andb_true_iff, !negb_true_iff, String.eqb_neq.
  reflexivity.
Qed.

Lemma join_prefix_join (baseDir entry : string) :
  entry <> "" ->
  join_prefix (path_join baseDir entry) = join_prefix baseDir ++ entry ++ "/".
Proof.
  intros NE. rewrite path_join_prefix. unfold join_prefix at 1.
  destruct (String.eqb_spec (join_prefix baseDir ++ entry) "") as [E | E].
  - apply append_eq_nil in E as [_ E]. contradiction.
  - now rewrite append_assoc.
Qed.

(** Two texts with a common continuation: one starts with the other. *)
Lemma append_eq_append (u x v y : string) :
  u ++ x = v ++ y ->
  (exists m, v = u ++ m /\ x = m ++ y) \/ (exists m, u = v ++ m /\ y = m ++ x).
Proof.
  revert v. induction u as [|c u IH]; intros v H.
  - left. now exists v.
  - destruct v as [|d v].
    + right. now exists (String c u).
    + cbn in H. injection H as -> H. destruct (IH _ H) as [[m [-> ->]] | [m [-> ->]]].
      * left. now exists m.
      * right. now exists m.
Qed.

(** A name that holds no separator ends at the first separator. *)
Lemma name_until_slash (a x t y : string) :
  includes a "/" = false ->
  a ++ "/" ++ x = t ++ "/" ++ y ->
  t = a \/ exists m, t = a ++ "/" ++ m /\ x = m ++ "/" ++ y.
Proof.
  intros A H. apply append_eq_append in H as [[m [-> H]] | [m [-> H]]].
  - destruct m as [|c m]; [left; now rewrite append_nil_r|].
    cbn in H. injection H as <- ->. right. now exists m.
  - destruct m as [|c m]; [left; now rewrite append_nil_r|].
    cbn in H. injection H as <- _.
    pose proof (includes_slash_append t m) as C. cbn [append] in C. congruence.
Qed.


End Paths.

(* ------------------------------------------------------------------ *)
(** ** What a scan reaches *)

Section Reach.

Variable skipDirs : list string.

Local Open Scope string_scope.

Lemma distinct_In (es : list (string * node)) (e : string) (c c' : node) :
  distinct (map fst es) = true -> In (e, c) es -> In (e, c') es -> c = c'.
Proof.
  induction es as [|[e0 c0] es IH]; [intros _ []|].
  cbn [map fst distinct]. intros D H H'.
  apply andb_true_iff in D as [N D]. apply negb_true_iff in N.
  apply Array_includes_not_In in N.
  destruct H as [E | H], H' as [E' | H'].
  - congruence.
  - injection E as -> ->. exfalso. apply N. apply in_map_iff.
    now exists (e, c').
  - injection E' as -> ->. exfalso. apply N. apply in_map_iff.
    now exists (e, c).
  - now apply IH.
Qed.

Lemma well_listed_entry (es : list (string * node)) (e : string) (c : node) :
  well_listed (Dir es) = true -> In (e, c) es ->
  name_ok e = true /\ well_listed c = true.
Proof.
  cbn [well_listed]. intros W H. apply andb_true_iff in W as [_ W].
  rewrite forallb_forall in W. specialize (W _ H). cbn [fst snd] in W.
  now apply andb_true_iff in W.
Qed.

Lemma well_listed_distinct (es : list (string * node)) :
  well_listed (Dir es) = true -> distinct (map fst es) = true.
Proof. cbn [well_listed]. intros W. now apply andb_true_iff in W as [W _]. Qed.

(** The entries pushed for a listing: the one of a name, or those of
    the scan below a directory that is not skipped. *)
Lemma walk_Dir_In (es : list (string * node)) (baseDir : string)
    (item : Item.t) :
  In item (walk skipDirs (Dir es) baseDir) <->
  exists e c,
    In (e, c) es
    /\ (emitted skipDirs baseDir e c = Some item
        \/ (is_directory c = true
            /\ shouldSkip skipDirs e baseDir (path_join baseDir e) = false
            /\ In item (walk skipDirs c (path_join baseDir e)))).
Proof.
  cbn [walk]. rewrite in_flat_map. split.
  - intros [[e c] [H I]]. exists e, c. split; [exact H|].
    unfold emitted. destruct c as [size|es'|err|err]; cbn [is_directory].
    + destruct I as [<- | []]. now left.
    + destruct (shouldSkip skipDirs e baseDir (path_join baseDir e)).
      * destruct I as [<- | []]. now left.
      * destruct I as [<- | I]; [now left | right; auto].
    + destruct (shouldSkip skipDirs e baseDir (path_join baseDir e)).
      * destruct I as [<- | []]. now left.
      * destruct I as [<- | I]; [now left | right; auto].
    + destruct I.
  - intros [e [c [H I]]]. exists (e, c). split; [exact H|].
    unfold emitted in I. destruct c as [size|es'|err|err]; cbn [is_directory] in I.
    + destruct I as [[= <-] | [C _]]; [now left | discriminate].
    + destruct (shouldSkip skipDirs e baseDir (path_join baseDir e)).
      * destruct I as [[= <-] | [_ [C _]]]; [now left | discriminate].
      * destruct I as [[= <-] | [_ [_ I]]]; [now left | now right].
    + destruct (shouldSkip skipDirs e baseDir (path_join baseDir e)).
      * destruct I as [[= <-] | [_ [C _]]]; [now left | discriminate].
      * destruct I as [[= <-] | [_ [_ I]]]; [now left | now right].
    + destruct I as [C | [C _]]; discriminate.
Qed.

Lemma emitted_path (baseDir e : string) (c : node) (item : Item.t) :
  emitted skipDirs baseDir e c = Some item ->
  Item.path item = path_join baseDir e.
Proof.
  unfold emitted. destruct c; intros [= <-]; reflexivity.
Qed.

Lemma reaches_emitted_In (n : node) (baseDir b e : string) (c : node)
    (item : Item.t) :
  reaches skipDirs n baseDir b e c ->
  emitted skipDirs b e c = Some item ->
  In item (walk skipDirs n baseDir).
Proof.
  induction 1 as [es baseDir e c H | es baseDir e1 c1 b e c H D S R IH];
    intros E; apply walk_Dir_In.
  - exists e, c. auto.
  - exists e1, c1. split; [exact H|]. right. auto.
Qed.

Lemma In_walk_reaches (n : node) :
  forall baseDir item,
    In item (walk skipDirs n baseDir) ->
    exists b e c, reaches skipDirs n baseDir b e c
                  /\ emitted skipDirs b e c = Some item.
Proof.
  induction n as [size|es IH|err|err] using node_induction;
    intros baseDir item I; try destruct I.
  apply walk_Dir_In in I as [e [c [H [I | [D [S I]]]]]].
  - exists baseDir, e, c. split; [now constructor | exact I].
  - rewrite Forall_forall in IH. specialize (IH _ H). cbn [snd] in IH.
    destruct (IH _ _ I) as [b [e' [c' [R E]]]].
    exists b, e', c'. split; [|exact E].
    now apply (reaches_below _ es baseDir e c).
Qed.

(** What is reached lies below the scanned directory and has a
    well-formed name and listing. *)
Lemma reaches_path (n : node) (baseDir b e : string) (c : node) :
  reaches skipDirs n baseDir b e c -> well_listed n = true ->
  name_ok e = true /\ well_listed c = true
  /\ exists first rest,
       name_ok first = true /\ (rest = "" \/ exists r, rest = "/" ++ r)
       /\ path_join b e = join_prefix baseDir ++ first ++ rest.
Proof.
  induction 1 as [es baseDir e c H | es baseDir e1 c1 b e c H D S R IH];
    intros W; destruct (well_listed_entry _ _ _ W H) as [Ne Wc].
  - split; [exact Ne|]. split; [exact Wc|]. exists e, "".
    rewrite path_join_prefix, append_nil_r. auto.
  - destruct (IH Wc) as [N [Wc' [f [rest [_ [_ P]]]]]].
    split; [exact N|]. split; [exact Wc'|].
    exists e1, ("/" ++ f ++ rest). split; [exact Ne|]. split; [right; eauto|].
    rewrite P, join_prefix_join, !append_assoc; [reflexivity|].
    now apply name_ok_iff in Ne.
Qed.

(** Two names of one listing, each followed by nothing or by a
    separator, that start the same text are the same name. *)
Lemma same_first_name (e1 rest1 e2 rest2 : string) :
  name_ok e1 = true -> name_ok e2 = true ->
  (rest1 = "" \/ exists r, rest1 = "/" ++ r) ->
  (exists r, rest2 = "/" ++ r) ->
  e1 ++ rest1 = e2 ++ rest2 ->
  e1 = e2 /\ rest1 = rest2.
Proof.
  intros N1 N2 R1 [r2 ->] H.
  apply name_ok_iff in N1 as [F1 _]. apply name_ok_iff in N2 as [F2 _].
  destruct R1 as [-> | [r1 ->]].
  - rewrite append_nil_r in H. subst e1.
    now rewrite includes_slash_append in F1.
  - destruct (name_until_slash _ _ _ _ F1 H) as [-> | [m [-> _]]].
    + split; [reflexivity|]. now apply append_cancel_l in H.
    + now rewrite includes_slash_append in F2.
Qed.

(** Nothing is reached below a directory that the scan skips. *)
Lemma skipped_subtree_unreached (n : node) (baseDir b e : string) (d : node) :
  reaches skipDirs n baseDir b e d ->
  well_listed n = true ->
  is_directory d = true ->
  shouldSkip skipDirs e b (path_join b e) = true ->
  forall b' e' c',
    reaches skipDirs n baseDir b' e' c' ->
    startsWith (path_join b' e') (path_join b e ++ "/") = false.
Proof.
  induction 1 as [es baseDir e d H | es baseDir e1 c1 b e d H D1 S1 R IH];
    intros W D S b' e' c' R';
    destruct (startsWith (path_join b' e') _) eqn:X; try reflexivity;
    exfalso; apply startsWith_iff in X as [more X];
    destruct (well_listed_entry _ _ _ W H) as [Ne Wc].
  - (* the skipped directory is listed here *)
    rewrite (path_join_prefix baseDir e), !append_assoc in X.
    inversion R' as [es' bd e2 c2 H2 | es' bd e2 c2 b2 e3 c3 H2 D2 S2 R2]; subst;
      destruct (well_listed_entry _ _ _ W H2) as [Ne2 Wc2].
    + rewrite path_join_prefix in X. apply append_cancel_l in X.
      apply name_ok_iff in Ne2 as [F2 _]. subst e'.
      now rewrite includes_slash_append in F2.
    + destruct (reaches_path _ _ _ _ _ R2 Wc2) as [_ [_ [f [rest [_ [_ P]]]]]].
      rewrite P, join_prefix_join, !append_assoc in X
        by now apply name_ok_iff in Ne2.
      apply append_cancel_l in X.
      destruct (same_first_name e2 ("/" ++ f ++ rest) e ("/" ++ more) Ne2 Ne
                  (or_intror (ex_intro _ _ eq_refl)) (ex_intro _ _ eq_refl) X)
        as [-> _].
      rewrite (distinct_In _ _ _ _ (well_listed_distinct _ W) H2 H) in *.
      congruence.
  - (* the skipped directory is below [e1] *)
    destruct (reaches_path _ _ _ _ _ R Wc) as [_ [_ [f [rest [Nf [Sh P]]]]]].
    rewrite P, join_prefix_join, !append_assoc in X
      by now apply name_ok_iff in Ne.
    inversion R' as [es' bd e2 c2 H2 | es' bd e2 c2 b2 e3 c3 H2 D2 S2 R2]; subst;
      destruct (well_listed_entry _ _ _ W H2) as [Ne2 Wc2].
    + rewrite path_join_prefix in X. apply append_cancel_l in X.
      apply name_ok_iff in Ne2 as [F2 _]. subst e'.
      now rewrite includes_slash_append in F2.
    + destruct (reaches_path _ _ _ _ _ R2 Wc2)
        as [_ [_ [f2 [rest2 [_ [_ P2]]]]]].
      rewrite P2, join_prefix_join, !append_assoc in X
        by now apply name_ok_iff in Ne2.
      apply append_cancel_l in X.
      destruct (same_first_name e2 ("/" ++ f2 ++ rest2)
                  e1 ("/" ++ f ++ rest ++ "/" ++ more) Ne2 Ne
                  (or_intror (ex_intro _ _ eq_refl)) (ex_intro _ _ eq_refl) X)
        as [-> [= X']].
      rewrite (distinct_In _ _ _ _ (well_listed_distinct _ W) H2 H) in *.
      specialize (IH Wc D S _ _ _ R2).
      assert (startsWith (path_join b' e') (path_join b e ++ "/") = true) as C;
        [|congruence].
      apply startsWith_iff. exists more.
      rewrite P2, P, join_prefix_join, !append_assoc
        by now apply name_ok_iff in Ne.
      now rewrite X'.
Qed.

(** The test of the loop, spelled out. *)
Lemma shouldSkip_iff (entry baseDir relativePath : string) :
  shouldSkip skipDirs entry baseDir relativePath = true <->
  exists s, In s skipDirs
            /\ ((includes s "/" = false /\ entry = s /\ baseDir = "")
                \/ (includes s "/" = true /\ relativePath = s)).
Proof.
  unfold shouldSkip. rewrite existsb_exists. split.
  - intros [s [H T]]. exists s. split; [exact H|].
    destruct (includes s "/"); cbn [negb] in T.
    + right. now apply String.eqb_eq in T.
    + left. apply andb_true_iff in T as [T1 T2].
      apply String.eqb_eq in T1, T2. auto.
  - intros [s [H T]]. exists s. split; [exact H|].
    destruct T as [[-> [-> ->]] | [-> ->]]; cbn [negb];
      now rewrite ?String.eqb_refl.
Qed.

End Reach.

(** C6. When the scan meets a directory that the skip test accepts (a
    skip entry without separator equal to its name, at top level; or a
    skip entry with a separator equal to its relative path), the
    returned sequence holds its entry with [isDirectory] true and size
    0, the scan reaches nothing below it, and no returned entry has a
    path below it. *)
Theorem skipped_directory_recorded_not_descended :
  forall (skipDirs : list string) (root : node) (b e : string) (d : node),
    well_listed root = true ->
    reaches skipDirs root "" b e d ->
    is_directory d = true ->
    shouldSkip skipDirs e b (path_join b e) = true ->
    (exists s, In s skipDirs
               /\ ((includes s "/" = false /\ e = s /\ b = ""%string)
                   \/ (includes s "/" = true /\ path_join b e = s)))
    /\ (forall b' e' c',
          reaches skipDirs root "" b' e' c' ->
          startsWith (path_join b' e') (path_join b e ++ "/") = false)
    /\ exists items lines,
         scanDirectory root skipDirs = (Returned items, lines)
         /\ In (Item.mk (path_join b e) true 0) items
         /\ (forall item, In item items ->
               startsWith (Item.path item) (path_join b e ++ "/") = false).
Proof.
  intros skipDirs root b e d W R D S.
  split; [now apply shouldSkip_iff|].
  split; [exact (skipped_subtree_unreached skipDirs root "" b e d R W D S)|].
  rewrite scanDirectory_walk. do 2 eexists. split; [reflexivity|]. split.
  - apply (Permutation_in _ (Permutation_sym (Array_sort_perm Item.size _))).
    apply (reaches_emitted_In skipDirs root "" b e d); [exact R|].
    unfold emitted. rewrite S. now destruct d.
  - intros item I.
    apply (Permutation_in _ (Array_sort_perm Item.size _)) in I.
    apply In_walk_reaches in I as [b' [e' [c' [R' E]]]].
    rewrite (emitted_path _ _ _ _ _ E).
    exact (skipped_subtree_unreached skipDirs root "" b e d R W D S _ _ _ R').
Qed.

Lemma skipped_directory_recorded_not_descended_witness :
  let root :=
    Dir [("a.txt", File 300);
         ("node_modules", Dir [("x.js", File 1000)]);
         ("b.txt", File 200)] in
  exists items lines,
    scanDirectory root COMMON_EXCLUDE_DIRS = (Returned items, lines)
    /\ In (Item.mk (path_join "" "node_modules") true 0) items
    /\ (forall item, In item items ->
          startsWith (Item.path item) (path_join "" "node_modules" ++ "/")
          = false).
Proof.
  intros root.
  refine (proj2 (proj2
            (skipped_directory_recorded_not_descended COMMON_EXCLUDE_DIRS root
               "" "node_modules" (Dir [("x.js", File 1000)])
               eq_refl _ eq_refl eq_refl))).
  apply reaches_entry. right. now left.
Defined.

(* ------------------------------------------------------------------ *)
(** ** Skip names below the top level *)

Section Nested.

Variable skipDirs : list string.

Local Open Scope string_scope.







End Nested.

Section DefaultExcludes.

Context {host : RegExpHost}.

Local Open Scope string_scope.









Lemma default_patterns_compile : forallb pattern_compiles defaultExcludes = true.
Proof. reflexivity. Qed.

End DefaultExcludes.





(* ------------------------------------------------------------------ *)
(** ** Further properties of the scanner *)

Section ScanMore.

Variable skipDirs : list string.

Local Open Scope string_scope.

Lemma append_self (a b : string) : a = a ++ b -> b = "".
Proof.
  intros H. symmetry. apply (append_cancel_l a). now rewrite append_nil_r.
Qed.

Lemma first_name_eq (e1 rest1 e2 rest2 : string) :
  name_ok e1 = true -> name_ok e2 = true ->
  (rest1 = "" \/ exists r, rest1 = "/" ++ r) ->
  (rest2 = "" \/ exists r, rest2 = "/" ++ r) ->
  e1 ++ rest1 = e2 ++ rest2 -> e1 = e2.
Proof.
  intros N1 N2 R1 [-> | R2] H.
  - destruct R1 as [-> | R1].
    + now rewrite !append_nil_r in H.
    + symmetry. symmetry in H.
      apply (same_first_name e2 "" e1 rest1 N2 N1 (or_introl eq_refl) R1 H).
  - apply (same_first_name e1 rest1 e2 rest2 N1 N2 R1 R2 H).
Qed.

(** Every path pushed for a listing starts with one of its names,
    followed by nothing or by a separator. *)
Lemma walk_item_shape (es : list (string * node)) (baseDir : string)
    (item : Item.t) :
  well_listed (Dir es) = true ->
  In item (walk skipDirs (Dir es) baseDir) ->
  exists e c rest,
    In (e, c) es /\ (rest = "" \/ exists r, rest = "/" ++ r)
    /\ Item.path item = join_prefix baseDir ++ e ++ rest.
Proof.
  intros W I. apply walk_Dir_In in I as [e [c [H [E | [D [S I]]]]]];
    destruct (well_listed_entry _ _ _ W H) as [Ne Wc].
  - exists e, c, "". split; [exact H|]. split; [now left|].
    rewrite (emitted_path _ _ _ _ _ E), path_join_prefix.
    now rewrite append_nil_r.
  - apply In_walk_reaches in I as [b [e' [c' [R E]]]].
    destruct (reaches_path _ _ _ _ _ _ R Wc) as [_ [_ [f [rest [_ [_ P]]]]]].
    exists e, c, ("/" ++ f ++ rest). split; [exact H|].
    split; [right; eauto|].
    rewrite (emitted_path _ _ _ _ _ E), P, join_prefix_join, !append_assoc;
      [reflexivity|].
    now apply name_ok_iff in Ne.
Qed.

Lemma well_listed_tail (e : string) (c : node) (es : list (string * node)) :
  well_listed (Dir ((e, c) :: es)) = true ->
  well_listed (Dir es) = true /\ well_listed (Dir [(e, c)]) = true
  /\ ~ In e (map fst es).
Proof.
  cbn [well_listed map fst snd distinct forallb Array_includes existsb].
  intros W. apply andb_true_iff in W as [D F].
  apply andb_true_iff in D as [N D]. apply andb_true_iff in F as [Hc F].
  rewrite D, F, Hc. repeat split.
  apply negb_true_iff in N. now apply Array_includes_not_In in N.
Qed.

(** The paths pushed by a scan are pairwise distinct. *)
Lemma walk_paths_NoDup (n : node) :
  forall baseDir, well_listed n = true ->
    NoDup (map Item.path (walk skipDirs n baseDir)).
Proof.
  induction n as [size|es IH|err|err] using node_induction; intros baseDir W;
    try (cbn; constructor).
  revert W. induction IH as [|[e c] es Hc _ IHes]; intros W; [constructor|].
  destruct (well_listed_tail _ _ _ W) as [Wes [W1 Fresh]].
  destruct (well_listed_entry _ _ _ W (or_introl eq_refl)) as [Ne Wc].
  change ((e, c) :: es) with ([(e, c)] ++ es)%list.
  rewrite walk_app, map_app. apply NoDup_app.
  - cbn [snd] in Hc. specialize (Hc (path_join baseDir e) Wc).
    assert (~ In (path_join baseDir e)
              (map Item.path (walk skipDirs c (path_join baseDir e)))) as Top.
    { intros I. apply in_map_iff in I as [item [E I]].
      destruct c as [size|es'|err|err]; try destruct I.
      destruct (walk_item_shape _ _ _ Wc I) as [e' [c' [rest [H' [_ P]]]]].
      rewrite P, join_prefix_join in E by now apply name_ok_iff in Ne.
      rewrite path_join_prefix, !append_assoc in E.
      apply append_cancel_l in E. symmetry in E. apply append_self in E.
      discriminate. }
    cbn [walk flat_map]. rewrite app_nil_r.
    destruct c as [size|es'|err|err].
    + cbn. repeat constructor. intros [].
    + destruct (shouldSkip skipDirs e baseDir (path_join baseDir e)).
      * cbn. repeat constructor. intros [].
      * cbn [map Item.path]. now constructor.
    + destruct (shouldSkip skipDirs e baseDir (path_join baseDir e)).
      * cbn. repeat constructor. intros [].
      * cbn [map Item.path]. now constructor.
    + constructor.
  - now apply IHes.
  - intros p I1 I2.
    apply in_map_iff in I1 as [i1 [<- I1]]. apply in_map_iff in I2 as [i2 [E I2]].
    destruct (walk_item_shape _ _ _ W1 I1) as [e1 [c1 [r1 [H1 [S1 P1]]]]].
    destruct (walk_item_shape _ _ _ Wes I2) as [e2 [c2 [r2 [H2 [S2 P2]]]]].
    destruct H1 as [[= <- <-] | []].
    destruct (well_listed_entry _ _ _ Wes H2) as [Ne2 _].
    rewrite P1, P2 in E. apply append_cancel_l in E.
    apply Fresh. apply in_map_iff. exists (e2, c2). split; [|exact H2].
    cbn [fst]. exact (first_name_eq _ _ _ _ Ne2 Ne S2 S1 E).
Qed.

End ScanMore.

Section DirSize.











End DirSize.

(** X1. [scanDirectory] returns the entries that [scan] pushed, put in
    decreasing order of size, entries of one size staying in the order
    in which they were pushed; the lines it logged are those of
    [scan]. *)
Theorem scan_result_sorted :
  forall (root : node) (skipDirs : list string),
    exists st found lines,
      scan skipDirs root "" (mkState [] []) = (Returned tt, st)
      /\ scanDirectory root skipDirs = (Returned found, lines)
      /\ lines = Scan.log st
      /\ Permutation found (Scan.items st)
      /\ StronglySorted (fun a b => Item.size b <= Item.size a) found
      /\ (forall s,
            filter (fun item => Item.size item =? s) found
            = filter (fun item => Item.size item =? s) (Scan.items st)).
Proof.
  intros root skipDirs. rewrite scanDirectory_walk, scan_walk.
  do 3 eexists. split; [reflexivity|]. split; [reflexivity|].
  cbn [Scan.items Scan.log app]. split; [reflexivity|]. split; [|split].
  - apply (Array_sort_perm Item.size).
  - apply (Array_sort_sorted Item.size).
  - intros s. apply (Array_sort_stable Item.size).
Qed.

(** X2. On a file system whose listings hold proper names (not empty,
    without separator) and no name twice, the entries returned by
    [scanDirectory] have pairwise distinct paths. *)
Theorem scan_paths_distinct :
  forall (root : node) (skipDirs : list string) (found : list Item.t)
         (lines : list log_line),
    well_listed root = true ->
    scanDirectory root skipDirs = (Returned found, lines) ->
    NoDup (map Item.path found).
Proof.
  intros root skipDirs found lines W E.
  rewrite scanDirectory_walk in E. injection E as <- _.
  apply (Permutation_NoDup
           (Permutation_map Item.path
              (Permutation_sym (Array_sort_perm Item.size _)))).
  now apply walk_paths_NoDup.
Qed.

Lemma scan_paths_distinct_witness :
  NoDup
    (map Item.path
       [Item.mk "a.txt" false 300; Item.mk "src" true 10;
        Item.mk "src/a.txt" false 10; Item.mk "src/lib" true 0;
        Item.mk "dist" true 0]).
Proof.
  apply (scan_paths_distinct
           (Dir [("a.txt", File 300);
                 ("src", Dir [("a.txt", File 10); ("lib", Dir [])]);
                 ("dist", Dir [("a.txt", File 1000)])])
           COMMON_EXCLUDE_DIRS
           [Item.mk "a.txt" false 300; Item.mk "src" true 10;
            Item.mk "src/a.txt" false 10; Item.mk "src/lib" true 0;
            Item.mk "dist" true 0]
           []).
  - reflexivity.
  - reflexivity.
Defined.



(* ------------------------------------------------------------------ *)
(** ** Further properties of the estimate *)

Section EstimateMore.

Context {host : RegExpHost}.









(** After a pattern that misses, or a list of patterns that all miss. *)
Lemma isExcluded_all_miss (itemPath : string) (pats : list string) (d : bool) :
  isExcluded itemPath pats d = Some false <->
  forall p, In p pats -> isPathExcluded itemPath p d = Some false.
Proof.
  induction pats as [|p pats IH]; cbn [isExcluded].
  - split; [intros _ p [] | reflexivity].
  - destruct (isPathExcluded itemPath p d) as [[|]|] eqn:E.
    + split; [discriminate|]. intros H.
      specialize (H p (or_introl eq_refl)). congruence.
    + rewrite IH. split.
      * intros H q [<- | Hq]; auto.
      * intros H q Hq. apply H. now right.
    + split; [discriminate|]. intros H.
      specialize (H p (or_introl eq_refl)). congruence.
Qed.




(** A pattern that already stands earlier in the list adds nothing. *)
Lemma isExcluded_repeated (itemPath : string) (acc rest : list string)
    (x : string) (d : bool) :
  In x acc ->
  isExcluded itemPath (acc ++ x :: rest) d = isExcluded itemPath (acc ++ rest) d.
Proof.
  intros H. rewrite !isExcluded_app.
  destruct (isExcluded itemPath acc d) as [[|]|] eqn:E; try reflexivity.
  cbn [isExcluded].
  now rewrite (proj1 (isExcluded_all_miss _ _ _) E x H).
Qed.

Lemma isExcluded_from_Set (itemPath : string) (xs : list string) (d : bool) :
  forall acc,
    isExcluded itemPath (fold_left Set_add xs acc) d
    = isExcluded itemPath (acc ++ xs) d.
Proof.
  induction xs as [|x xs IH]; intros acc; cbn [fold_left].
  - now rewrite app_nil_r.
  - rewrite IH. unfold Set_add.
    destruct (Array_includes acc x) eqn:I.
    + symmetry. apply isExcluded_repeated. now apply Array_includes_In.
    + now rewrite <- app_assoc.
Qed.

Lemma estimate_ext (items : list Item.t) (ps qs : list string) :
  (forall item, In item items ->
     isExcluded (Item.path item) ps false = isExcluded (Item.path item) qs false) ->
  estimateFinalSize items ps = estimateFinalSize items qs.
Proof.
  intros H. unfold estimateFinalSize.
  assert (forall acc,
             fold_left (estimate_step ps) items acc
             = fold_left (estimate_step qs) items acc) as ->; [|reflexivity].
  induction items as [|item items IH]; intros acc; [reflexivity|].
  cbn [fold_left].
  assert (estimate_step ps acc item = estimate_step qs acc item) as ->.
  { unfold estimate_step. now rewrite (H item (or_introl eq_refl)). }
  apply IH. intros; apply H; now right.
Qed.


End EstimateMore.





(** X6. Removing the repeated patterns, as [main] does before it
    builds the command, changes no answer of [isExcluded]; so the final
    size that [main] computes from the list with repetitions is the
    estimate under the list handed to the command. *)
Theorem estimate_ignores_repeated_patterns {host : RegExpHost} :
  (forall (itemPath : string) (excludePatterns : list string) (isDirectory : bool),
      isExcluded itemPath (Array_from_Set excludePatterns) isDirectory
      = isExcluded itemPath excludePatterns isDirectory)
  /\ (forall (items : list Item.t)
             (defaults extras selectedExcludes : list string),
        estimateFinalSize items
          (dedupedExcludes defaults extras selectedExcludes)
        = estimateFinalSize items
            (finalExcludes defaults extras selectedExcludes)).
Proof.
  assert (forall itemPath pats d,
             isExcluded itemPath (Array_from_Set pats) d
             = isExcluded itemPath pats d) as K.
  { intros p pats d. unfold Array_from_Set.
    now rewrite isExcluded_from_Set. }
  split; [exact K|].
  intros items ds es ss. apply estimate_ext. intros item _.
  unfold dedupedExcludes. apply K.
Qed.



(* ------------------------------------------------------------------ *)
(** ** Further properties of the matcher *)

Section MatcherMore.

Context {host : RegExpHost}.

Local Open Scope string_scope.

Lemma plain_append (a b : string) :
  plain a = true -> plain b = true -> plain (a ++ b) = true.
Proof.
  induction a as [|c a IH]; [auto|]. cbn [plain append]. intros H Hb.
  apply andb_true_iff in H as [Hc Ha]. now rewrite Hc, IH.
Qed.

(** Writing ".*" for two stars keeps a pattern plain. *)
Lemma plain_replace_star_star (pattern : string) :
  (plain pattern = true -> plain (replace_star_star pattern ".*") = true)
  /\ (forall c, plain (String c pattern) = true ->
                plain (replace_star_star (String c pattern) ".*") = true).
Proof.
  induction pattern as [|a p [IH1 IH2]].
  - split; [reflexivity|]. intros c H. cbn [replace_star_star].
    destruct (Ascii.eqb c "*"); exact H.
  - split; [apply IH2|]. intros c H.
    cbn [plain] in H. apply andb_true_iff in H as [Hc H].
    cbn [replace_star_star]. destruct (Ascii.eqb c "*") eqn:Cs.
    + destruct (Ascii.eqb a "*") eqn:As.
      * apply plain_append; [reflexivity|]. apply IH1.
        cbn [plain] in H. now apply andb_true_iff in H as [_ H].
      * cbn [plain]. rewrite Hc. cbn [andb].
        specialize (IH2 a H). cbn [replace_star_star] in IH2.
        now rewrite As in IH2.
    + cbn [plain]. rewrite Hc. cbn [andb]. exact (IH2 a H).
Qed.

(** The terms read from the source text of a plain pattern, two stars
    in a row included. *)
Lemma RegExp_plain_any (pattern : string) :
  plain pattern = true ->
  RegExp (wildcard_source pattern)
  = Some (Bol :: terms_of (replace_star_star pattern ".*") ++ [Eol])%list.
Proof.
  intros P. unfold RegExp, wildcard_source.
  cbn [append parse Ascii.eqb].
  change (parse Top [Bol]
            (replace_star (replace_star_star pattern ".*") "[^/]*" ++ "$")
          = Some (Bol :: terms_of (replace_star_star pattern ".*") ++ [Eol])%list).
  rewrite (parse_plain _ (proj1 (plain_replace_star_star pattern) P)).
  cbn. rewrite rev_app_distr, rev_involutive. reflexivity.
Qed.

Lemma wildcard_branch_any (pattern itemPath : string) (isDirectory : bool) :
  plain pattern = true ->
  includes pattern "*" = true ->
  endsWith pattern "/**" = false ->
  exists r,
    isPathExcluded itemPath pattern isDirectory = Some r
    /\ (r = true
        <-> unescaped_glob (replace_star_star pattern ".*") itemPath).
Proof.
  intros P S T. unfold isPathExcluded. rewrite T, S. cbn [negb]. cbv zeta.
  rewrite (test_source_fragment _ _ (RegExp_plain_any _ P)).
  eexists. split; [reflexivity|].
  rewrite test_anchored,
    (run_no_bol _ (no_bol_terms_of (replace_star_star pattern ".*")) true false).
  apply run_terms_glob.
Qed.

Lemma glob_nil_inv (s : string) : unescaped_glob "" s -> s = "".
Proof. intros G. now inversion G. Qed.

Lemma glob_dot_star (itemPath : string) :
  unescaped_glob ".*" itemPath <->
  exists c segment,
    itemPath = String c segment /\ is_line_terminator c = false
    /\ includes segment "/" = false.
Proof.
  split.
  - intros G.
    inversion G as [| |p c rest L G'|p c rest N1 N2 G']; subst;
      [|congruence].
    inversion G' as [|p seg rest' Hs G''| |p c' rest' N1 N2 G'']; subst;
      [|congruence].
    apply glob_nil_inv in G''. subst rest'. rewrite append_nil_r.
    now exists c, seg.
  - intros [c [seg [-> [L Hs]]]]. constructor; [exact L|].
    rewrite <- (append_nil_r seg). constructor; [exact Hs | constructor].
Qed.

Lemma isExcluded_flag (itemPath : string) (pats : list string) :
  isExcluded itemPath pats true = isExcluded itemPath pats false.
Proof.
  induction pats as [|p pats IH]; [reflexivity|]. cbn [isExcluded].
  change (isPathExcluded itemPath p true) with (isPathExcluded itemPath p false).
  now rewrite IH.
Qed.

(** An answer other than a miss comes from the first pattern that does
    not miss. *)
Lemma isExcluded_first (itemPath : string) (pats : list string) (d : bool)
    (r : option bool) :
  r <> Some false ->
  (isExcluded itemPath pats d = r <->
   exists before p after,
     pats = (before ++ p :: after)%list
     /\ (forall q, In q before -> isPathExcluded itemPath q d = Some false)
     /\ isPathExcluded itemPath p d = r).
Proof.
  intros N. induction pats as [|p pats IH]; cbn [isExcluded].
  - split; [congruence|]. intros [[|b bs] [q [after [E _]]]]; discriminate.
  - split.
    + destruct (isPathExcluded itemPath p d) as [[|]|] eqn:E.
      * intros <-. exists [], p, pats. repeat split; [intros q []|exact E].
      * intros H. apply IH in H as [before [q [after [-> [M H]]]]].
        exists (p :: before), q, after. split; [reflexivity|].
        split; [|exact H]. intros q' [<- | Hq]; auto.
      * intros <-. exists [], p, pats. repeat split; [intros q []|exact E].
    + intros [[|b before] [q [after [E [M H]]]]]; injection E as <- ->.
      * rewrite H. destruct r as [[|]|]; congruence.
      * rewrite (M p (or_introl eq_refl)). apply IH.
        exists before, q, after. split; [reflexivity|].
        split; [|exact H]. intros q' Hq. apply M. now right.
Qed.

End MatcherMore.

(** X8. In a wildcard pattern two stars in a row do not stand for any
    characters: the first [replace] writes ".*" for them and the second
    one rewrites the star of that ".*", so they act as a dot followed
    by one star.  For every pattern of stars, dots and characters that
    are not syntax characters, with a star and not ending in "/**",
    [isPathExcluded] answers, and answers true exactly when the path
    is accepted by the pattern with ".*" written for each "**", a star
    standing for a run without separator and a dot for one character.
    So "**" matches exactly the paths made of one character that is no
    line terminator followed by characters other than the separator. *)
Theorem double_star_is_dot_star {host : RegExpHost} :
  (forall pattern itemPath isDirectory,
      plain pattern = true ->
      includes pattern "*" = true ->
      endsWith pattern "/**" = false ->
      exists r,
        isPathExcluded itemPath pattern isDirectory = Some r
        /\ (r = true
            <-> unescaped_glob (replace_star_star pattern ".*") itemPath))
  /\ (forall itemPath isDirectory,
        isPathExcluded itemPath "**" isDirectory = Some true
        <-> exists c segment,
              itemPath = String c segment /\ is_line_terminator c = false
              /\ includes segment "/" = false).
Proof.
  split; [exact wildcard_branch_any|].
  intros itemPath d.
  destruct (wildcard_branch_any "**" itemPath d eq_refl eq_refl eq_refl)
    as [r [E R]].
  rewrite E. change (replace_star_star "**" ".*") with ".*"%string in R.
  rewrite <- glob_dot_star, <- R.
  split; [now intros [= ->] | now intros ->].
Qed.

Lemma double_star_is_dot_star_witness :
  exists r,
    isPathExcluded "lib/app.test.js" "**/*.test.js" false = Some r
    /\ (r = true
        <-> unescaped_glob (replace_star_star "**/*.test.js" ".*")
              "lib/app.test.js").
Proof.
  exact (proj1 double_star_is_dot_star "**/*.test.js" "lib/app.test.js" false
           eq_refl eq_refl eq_refl).
Defined.

(** X9. [isExcluded] stops at the first pattern that does not miss:
    it answers true exactly when some pattern matches and every pattern
    before it misses, and it throws exactly when some pattern makes
    [isPathExcluded] throw and every pattern before it misses; so a
    pattern whose regular expression does not compile is harmless for
    the paths that an earlier pattern matches.  It answers false
    exactly when every pattern misses, and the [isDirectory] argument
    has no effect. *)
Theorem excluded_by_first_match {host : RegExpHost} :
  forall (itemPath : string) (excludePatterns : list string)
         (isDirectory : bool),
    (isExcluded itemPath excludePatterns isDirectory = Some true <->
     exists before p after,
       excludePatterns = before ++ p :: after
       /\ (forall q, In q before ->
                     isPathExcluded itemPath q isDirectory = Some false)
       /\ isPathExcluded itemPath p isDirectory = Some true)
    /\ (isExcluded itemPath excludePatterns isDirectory = None <->
        exists before p after,
          excludePatterns = before ++ p :: after
          /\ (forall q, In q before ->
                        isPathExcluded itemPath q isDirectory = Some false)
          /\ isPathExcluded itemPath p isDirectory = None)
    /\ (isExcluded itemPath excludePatterns isDirectory = Some false <->
        forall q, In q excludePatterns ->
                  isPathExcluded itemPath q isDirectory = Some false)
    /\ isExcluded itemPath excludePatterns true
       = isExcluded itemPath excludePatterns false.
Proof.
  intros itemPath pats d. split; [|split; [|split]].
  - apply isExcluded_first. discriminate.
  - apply isExcluded_first. discriminate.
  - apply isExcluded_all_miss.
  - apply isExcluded_flag.
Qed.

(* ------------------------------------------------------------------ *)
(** ** The skip list and the exclude patterns of the options *)

Section OptionLists.

Context {host : RegExpHost}.

Lemma distinct_NoDup (xs : list string) : distinct xs = true -> NoDup xs.
Proof.
  induction xs as [|x xs IH]; [constructor|]. cbn [distinct]. intros H.
  apply andb_true_iff in H as [N D]. apply negb_true_iff in N.
  constructor; [now apply Array_includes_not_In | now apply IH].
Qed.

Lemma NoDup_snoc (xs : list string) (x : string) :
  NoDup xs -> ~ In x xs -> NoDup (xs ++ [x]).
Proof.
  intros N F. apply NoDup_app; [exact N | repeat constructor; intros [] |].
  intros a Ha [<- | []]. contradiction.
Qed.

(** The loop of [getExcludeDirs], from any list without repetition. *)
Lemma skip_fold (extraExclude : list string) :
  forall init, NoDup init ->
    exists added,
      fold_left
        (fun skipDirs pattern =>
           if endsWith pattern "/**" then
             let dirName := slice_0_neg pattern 3 in
             if negb (Array_includes skipDirs dirName)
             then (skipDirs ++ [dirName])%list else skipDirs
           else if negb (includes pattern "*") then
             if negb (Array_includes skipDirs pattern)
             then (skipDirs ++ [pattern])%list else skipDirs
           else skipDirs)
        extraExclude init
      = init ++ added
      /\ NoDup (init ++ added)
      /\ (forall d, In d added ->
            exists p, In p extraExclude /\ skip_entry_from p d)
      /\ (forall p d, In p extraExclude -> skip_entry_from p d ->
            In d (init ++ added)).
Proof.
  set (step := fun (skipDirs : list string) (pattern : string) =>
                 if endsWith pattern "/**" then
                   let dirName := slice_0_neg pattern 3 in
                   if negb (Array_includes skipDirs dirName)
                   then (skipDirs ++ [dirName])%list else skipDirs
                 else if negb (includes pattern "*") then
                   if negb (Array_includes skipDirs pattern)
                   then (skipDirs ++ [pattern])%list else skipDirs
                 else skipDirs).
  assert (forall init p, NoDup init ->
            exists new,
              step init p = init ++ new /\ NoDup (init ++ new)
              /\ (forall d, In d new -> skip_entry_from p d)
              /\ (forall d, skip_entry_from p d -> In d (init ++ new))) as Step.
  { intros init p N.
    assert (forall d, skip_entry_from p d ->
              (forall d', skip_entry_from p d' -> d' = d) ->
              exists new,
                (if negb (Array_includes init d)
                 then (init ++ [d])%list else init) = init ++ new
                /\ NoDup (init ++ new)
                /\ (forall x, In x new -> skip_entry_from p x)
                /\ (forall x, skip_entry_from p x -> In x (init ++ new))) as Push.
    { intros d Sd U. destruct (Array_includes init d) eqn:I; cbn [negb].
      - apply Array_includes_In in I. exists []. rewrite app_nil_r.
        split; [reflexivity|]. split; [exact N|].
        split; [intros x [] | intros x Sx; now rewrite (U x Sx)].
      - apply Array_includes_not_In in I. exists [d].
        split; [reflexivity|]. split; [now apply NoDup_snoc|]. split.
        + now intros x [<- | []].
        + intros x Sx. rewrite (U x Sx). apply in_or_app. right. now left. }
    unfold step. cbv zeta. destruct (endsWith p "/**") eqn:T.
    - apply Push; [left; auto|].
      intros d' [[_ ->] | [C _]]; [reflexivity | congruence].
    - destruct (includes p "*") eqn:St; cbn [negb].
      + exists []. rewrite app_nil_r. split; [reflexivity|]. split; [exact N|].
        split; [intros x []|].
        intros x [[C _] | [_ [C _]]]; congruence.
      + apply Push; [right; auto|].
        intros d' [[C _] | [_ [_ ->]]]; [congruence | reflexivity]. }
  induction extraExclude as [|p rest IH]; intros init N.
  - exists []. rewrite app_nil_r. split; [reflexivity|]. split; [exact N|].
    split; [intros d [] | intros p d []].
  - cbn [fold_left]. destruct (Step init p N) as [new [E [N' [S1 C1]]]].
    rewrite E. destruct (IH _ N') as [added [F [ND [Sound Complete]]]].
    rewrite F. exists (new ++ added). rewrite app_assoc.
    split; [reflexivity|]. split; [exact ND|]. split.
    + intros d Hd. apply in_app_or in Hd as [Hd | Hd].
      * exists p. split; [now left | now apply S1].
      * destruct (Sound _ Hd) as [q [Hq S]].
        exists q. split; [now right | exact S].
    + intros q d [<- | Hq] S.
      * apply in_or_app. left. now apply C1.
      * now apply (Complete q).
Qed.

Lemma skip_list_shape (extraExclude : list string) :
  exists added,
    getExcludeDirs extraExclude = COMMON_EXCLUDE_DIRS ++ added
    /\ NoDup (getExcludeDirs extraExclude)
    /\ (forall d, In d added <->
          ~ In d COMMON_EXCLUDE_DIRS
          /\ exists p, In p extraExclude /\ skip_entry_from p d).
Proof.
  destruct (skip_fold extraExclude COMMON_EXCLUDE_DIRS
              (distinct_NoDup COMMON_EXCLUDE_DIRS eq_refl))
    as [added [F [ND [Sound Complete]]]].
  assert (getExcludeDirs extraExclude = COMMON_EXCLUDE_DIRS ++ added) as F'
    by exact F.
  exists added. rewrite F'.
  split; [reflexivity|]. split; [exact ND|]. intros d. split.
  - intros Hd. split; [|now apply Sound].
    intros C. revert ND d C Hd. generalize COMMON_EXCLUDE_DIRS as init.
    induction init as [|x init IHi]; [intros _ d []|].
    cbn [app]. intros ND d C Hd. apply NoDup_cons_iff in ND as [Nx ND].
    destruct C as [<- | C]; [|now apply (IHi ND d)].
    apply Nx. apply in_or_app. now right.
  - intros [Nd [p [Hp S]]].
    destruct (in_app_or _ _ _ (Complete p d Hp S)); [contradiction | assumption].
Qed.

(** The loop of [prepareExcludePatterns]. *)
Lemma extra_fold (isDirectoryAt : string -> string -> outcome bool)
    (directory : string) (pieces : list string) :
  forall acc res,
    fold_left (extra_step isDirectoryAt directory) pieces (Returned acc)
    = Returned res ->
    incl acc res
    /\ (forall q, In q res ->
          In q acc
          \/ exists piece, In piece pieces
                           /\ extra_pattern_from isDirectoryAt directory piece q)
    /\ (forall piece, In piece pieces -> String_trim piece <> ""%string ->
          exists q, In q res
                    /\ extra_pattern_from isDirectoryAt directory piece q).
Proof.
  assert (forall ps err,
             fold_left (extra_step isDirectoryAt directory) ps (Thrown err)
             = Thrown err) as Stuck
    by (induction ps as [|p ps IHp]; intros err; [reflexivity | apply IHp]).
  induction pieces as [|piece rest IH]; intros acc res.
  - cbn [fold_left]. intros [= <-]. split; [apply incl_refl|].
    split; [auto | intros ? []].
  - cbn [fold_left].
    assert (forall q acc',
               extra_pattern_from isDirectoryAt directory piece q ->
               acc' = (acc ++ [q])%list ->
               fold_left (extra_step isDirectoryAt directory) rest
                 (Returned acc') = Returned res ->
               incl acc res
               /\ (forall q0, In q0 res ->
                     In q0 acc
                     \/ exists piece0,
                          In piece0 (piece :: rest)
                          /\ extra_pattern_from isDirectoryAt directory piece0 q0)
               /\ (forall piece0, In piece0 (piece :: rest) ->
                     String_trim piece0 <> ""%string ->
                     exists q0, In q0 res
                                /\ extra_pattern_from isDirectoryAt directory
                                     piece0 q0)) as Pushed.
    { intros q acc' P -> F. destruct (IH _ _ F) as [I [Sound Complete]].
      split; [intros x Hx; apply I, in_or_app; now left|]. split.
      - intros q0 H0. destruct (Sound _ H0) as [H1 | [p0 [Hp0 P0]]].
        + apply in_app_or in H1 as [H1 | [<- | []]]; [now left|].
          right. exists piece. split; [now left | exact P].
        + right. exists p0. split; [now right | exact P0].
      - intros p0 [<- | Hp0] T.
        + exists q. split; [|exact P]. apply I, in_or_app. right. now left.
        + now apply Complete. }
    unfold extra_step at 2.
    destruct (String.eqb_spec (String_trim piece) "") as [B | B]; cbn [negb].
    + intros F. destruct (IH _ _ F) as [I [Sound Complete]].
      split; [exact I|]. split.
      * intros q Hq. destruct (Sound _ Hq) as [H1 | [p0 [Hp0 P0]]]; [now left|].
        right. exists p0. split; [now right | exact P0].
      * intros p0 [<- | Hp0] T; [contradiction | now apply Complete].
    + destruct (includes (String_trim piece) "*") eqn:St; cbn [negb].
      * refine (Pushed (String_trim piece) _ _ eq_refl).
        split; [exact B|]. left. auto.
      * destruct (isDirectoryAt directory (String_trim piece)) as [[|]|err] eqn:D.
        -- refine (Pushed (String_trim piece ++ "/**")%string _ _ eq_refl).
           split; [exact B|]. right. left. auto.
        -- refine (Pushed (String_trim piece) _ _ eq_refl).
           split; [exact B|]. right. right. auto.
        -- rewrite Stuck. discriminate.
Qed.

Lemma extra_fold_total (isDirectoryAt : string -> string -> outcome bool)
    (directory : string) (pieces : list string) :
  (forall piece, In piece pieces ->
     exists b, isDirectoryAt directory (String_trim piece) = Returned b) ->
  forall acc, exists res,
    fold_left (extra_step isDirectoryAt directory) pieces (Returned acc)
    = Returned res.
Proof.
  induction pieces as [|piece rest IH]; intros H acc; [now exists acc|].
  cbn [fold_left]. unfold extra_step at 2.
  assert (forall p, In p rest ->
            exists b, isDirectoryAt directory (String_trim p) = Returned b) as H'
    by (intros; apply H; now right).
  destruct (negb (String.eqb (String_trim piece) "")); [|now apply IH].
  destruct (negb (includes (String_trim piece) "*")); [|now apply IH].
  destruct (H piece (or_introl eq_refl)) as [[|] ->]; now apply IH.
Qed.

Lemma extra_fold_thrown (isDirectoryAt : string -> string -> outcome bool)
    (directory : string) (pieces : list string) :
  forall acc err,
    fold_left (extra_step isDirectoryAt directory) pieces (Returned acc)
    = Thrown err ->
    exists piece,
      In piece pieces /\ String_trim piece <> ""%string
      /\ includes (String_trim piece) "*" = false
      /\ isDirectoryAt directory (String_trim piece) = Thrown err.
Proof.
  assert (forall ps err,
             fold_left (extra_step isDirectoryAt directory) ps (Thrown err)
             = Thrown err) as Stuck
    by (induction ps as [|p ps IHp]; intros err; [reflexivity | apply IHp]).
  induction pieces as [|piece rest IH]; intros acc err; [discriminate|].
  cbn [fold_left]. unfold extra_step at 2.
  assert (forall acc',
             fold_left (extra_step isDirectoryAt directory) rest (Returned acc')
             = Thrown err ->
             exists piece0,
               In piece0 (piece :: rest) /\ String_trim piece0 <> ""%string
               /\ includes (String_trim piece0) "*" = false
               /\ isDirectoryAt directory (String_trim piece0) = Thrown err)
    as Later.
  { intros acc' F. destruct (IH _ _ F) as [p0 [Hp0 R]].
    exists p0. split; [now right | exact R]. }
  destruct (String.eqb_spec (String_trim piece) "") as [B | B]; cbn [negb];
    [apply Later|].
  destruct (includes (String_trim piece) "*") eqn:St; cbn [negb];
    [apply Later|].
  destruct (isDirectoryAt directory (String_trim piece)) as [[|]|e] eqn:D;
    [apply Later | apply Later |].
  rewrite Stuck. intros [= <-]. exists piece. split; [now left | auto].
Qed.

(** The answer of the matcher on what one piece became. *)
Lemma extra_pattern_answer (isDirectoryAt : string -> string -> outcome bool)
    (directory piece q itemPath : string) (d : bool) :
  extra_pattern_from isDirectoryAt directory piece q ->
  includes (String_trim piece) "*" = false ->
  isPathExcluded itemPath q d
  = Some (match isDirectoryAt directory (String_trim piece) with
          | Returned true => at_or_below (String_trim piece) itemPath
          | _ => String.eqb itemPath (String_trim piece)
          end).
Proof.
  intros [B [[C _] | [[St [D ->]] | [St [D ->]]]]] S; [congruence| |]; rewrite D.
  - apply tree_pattern_branch.
  - apply (literal_branch _ _ _ St).
Qed.

(** A pattern in the list that matches rules out the answer false. *)
Lemma isExcluded_hit (itemPath : string) (pats : list string) (d : bool)
    (p : string) :
  In p pats -> isPathExcluded itemPath p d = Some true ->
  isExcluded itemPath pats d <> Some false.
Proof.
  intros H M C. rewrite (proj1 (isExcluded_all_miss _ _ _) C p H) in M.
  discriminate.
Qed.

Lemma split_pieces (options : Options.t) :
  trimmed_pieces (Options.extraExclude options)
  = map String_trim
      (if truthy (Options.extraExclude options)
       then String_split (text_of (Options.extraExclude options))
       else []).
Proof.
  unfold trimmed_pieces. now destruct (truthy (Options.extraExclude options)).
Qed.

End OptionLists.

(** X10. The skip list of [getExcludeDirs] is the built-in list
    followed by added entries, no entry twice.  The added entries are
    exactly those made of a trimmed piece of the extra-exclude option
    and not built in: the directory of a piece ending in "/**", a piece
    without star as it is (the empty piece too), and nothing of a
    piece with a star elsewhere.  Without the option the skip list is
    the built-in list. *)
Theorem skip_list_extends_defaults :
  forall (options : Options.t),
    (exists added,
        getExcludeDirs_options options = COMMON_EXCLUDE_DIRS ++ added
        /\ NoDup (getExcludeDirs_options options)
        /\ (forall d, In d added <->
              ~ In d COMMON_EXCLUDE_DIRS
              /\ exists piece,
                   In piece (trimmed_pieces (Options.extraExclude options))
                   /\ skip_entry_from piece d))
    /\ (truthy (Options.extraExclude options) = false ->
        getExcludeDirs_options options = COMMON_EXCLUDE_DIRS).
Proof.
  intros options. split; [apply skip_list_shape|].
  unfold getExcludeDirs_options, trimmed_pieces. now intros ->.
Qed.

Lemma skip_list_extends_defaults_witness :
  getExcludeDirs_options
    (Options.mk "." (Some "") None None None false false None false)
  = COMMON_EXCLUDE_DIRS.
Proof.
  exact (proj2 (skip_list_extends_defaults
                  (Options.mk "." (Some "") None None None false false None
                     false)) eq_refl).
Defined.

(** X11. [prepareExcludePatterns] throws only when the file-system
    test throws on a piece without star that is not blank, and returns
    whenever that test answers.  When it returns, the full list is the
    default patterns followed by the extra ones, and the extra patterns
    are what the pieces of the option became: a blank piece gives
    nothing and a piece with a star stays as it is; a piece without
    star that names a directory gets "/**" and then matches that path
    and every path below it, and any other piece without star matches
    that path alone. *)
Theorem extra_patterns_of_pieces {host : RegExpHost} :
  forall (isDirectoryAt : string -> string -> outcome bool)
         (options : Options.t),
    let pieces :=
      if truthy (Options.extraExclude options)
      then String_split (text_of (Options.extraExclude options))
      else [] in
    let directory := Options.directory options in
    (forall r,
        prepareExcludePatterns isDirectoryAt options = Returned r ->
        ExcludePatterns.defaultExcludes r = defaultExcludes
        /\ ExcludePatterns.allExcludes r
           = defaultExcludes ++ ExcludePatterns.extraExcludes r
        /\ (forall q, In q (ExcludePatterns.extraExcludes r) ->
              exists piece,
                In piece pieces
                /\ extra_pattern_from isDirectoryAt directory piece q)
        /\ (forall piece, In piece pieces -> String_trim piece <> ""%string ->
              exists q,
                In q (ExcludePatterns.extraExcludes r)
                /\ extra_pattern_from isDirectoryAt directory piece q
                /\ (includes (String_trim piece) "*" = false ->
                    forall itemPath d,
                      isPathExcluded itemPath q d
                      = Some
                          (match isDirectoryAt directory (String_trim piece) with
                           | Returned true =>
                               at_or_below (String_trim piece) itemPath
                           | _ => String.eqb itemPath (String_trim piece)
                           end))))
    /\ (forall err,
          prepareExcludePatterns isDirectoryAt options = Thrown err ->
          exists piece,
            In piece pieces /\ String_trim piece <> ""%string
            /\ includes (String_trim piece) "*" = false
            /\ isDirectoryAt directory (String_trim piece) = Thrown err)
    /\ ((forall piece, In piece pieces ->
           exists b, isDirectoryAt directory (String_trim piece) = Returned b) ->
        exists r, prepareExcludePatterns isDirectoryAt options = Returned r).
Proof.
  intros isDirectoryAt options pieces directory.
  unfold prepareExcludePatterns. fold pieces. fold directory.
  split; [|split].
  - intros r E.
    destruct (fold_left (extra_step isDirectoryAt directory) pieces (Returned []))
      as [res|err] eqn:F; [|discriminate].
    injection E as <-. cbn [ExcludePatterns.defaultExcludes
                              ExcludePatterns.allExcludes
                              ExcludePatterns.extraExcludes].
    destruct (extra_fold _ _ _ _ _ F) as [_ [Sound Complete]].
    split; [reflexivity|]. split; [reflexivity|]. split.
    + intros q Hq. destruct (Sound q Hq) as [[] | H]. exact H.
    + intros piece Hp T. destruct (Complete piece Hp T) as [q [Hq P]].
      exists q. split; [exact Hq|]. split; [exact P|].
      intros S itemPath d. now apply extra_pattern_answer.
  - intros err E.
    destruct (fold_left (extra_step isDirectoryAt directory) pieces (Returned []))
      as [res|err'] eqn:F; [discriminate|].
    injection E as <-. exact (extra_fold_thrown _ _ _ _ _ F).
  - intros H. destruct (extra_fold_total _ _ _ H []) as [res ->]. eauto.
Qed.

Lemma extra_patterns_of_pieces_witness :
  exists r,
    prepareExcludePatterns (fun _ p => Returned (String.eqb p "lib"))
      (Options.mk "." (Some "lib, *.log, ,notes.txt") None None None false
         false None false)
    = Returned r.
Proof.
  apply (proj2 (proj2 (@extra_patterns_of_pieces fragment_host
                         (fun _ p => Returned (String.eqb p "lib"))
                         (Options.mk "." (Some "lib, *.log, ,notes.txt") None
                            None None false false None false)))).
  intros piece _. eexists. reflexivity.
Defined.

(** X12. A directory that the scan skips under the skip list of the
    options is never left unexcluded by the patterns made from the
    same options: [isExcluded] on its path under the full pattern list
    does not answer false, and it answers true when every extra
    pattern compiles. *)
Theorem skipped_directory_is_excluded {host : RegExpHost} :
  forall (isDirectoryAt : string -> string -> outcome bool)
         (options : Options.t) (r : ExcludePatterns.t)
         (entry baseDir : string),
    prepareExcludePatterns isDirectoryAt options = Returned r ->
    entry <> ""%string ->
    shouldSkip (getExcludeDirs_options options) entry baseDir
      (path_join baseDir entry) = true ->
    isExcluded (path_join baseDir entry) (ExcludePatterns.allExcludes r) true
    <> Some false
    /\ (forallb pattern_compiles (ExcludePatterns.extraExcludes r) = true ->
        isExcluded (path_join baseDir entry) (ExcludePatterns.allExcludes r) true
        = Some true).
Proof.
  intros isDirectoryAt options r entry baseDir E NE S.
  assert (isExcluded (path_join baseDir entry) (ExcludePatterns.allExcludes r)
            true <> Some false) as Hit.
  { apply shouldSkip_iff in S as [s [Hs M]].
    assert (path_join baseDir entry = s) as P.
    { destruct M as [[_ [-> ->]] | [_ M]]; [reflexivity | exact M]. }
    assert (s <> ""%string) as Ns.
    { rewrite <- P, path_join_prefix. intros C.
      now apply append_eq_nil in C as [_ C]. }
    rewrite P.
    unfold getExcludeDirs_options in Hs.
    destruct (skip_list_shape (trimmed_pieces (Options.extraExclude options)))
      as [added [F [_ A]]].
    rewrite F in Hs.
    unfold prepareExcludePatterns in E.
    destruct (fold_left _ _ (Returned [])) as [res|err] eqn:Fo; [|discriminate].
    assert (ExcludePatterns.allExcludes r = defaultExcludes ++ res) as ->
      by (injection E as <-; reflexivity).
    apply in_app_or in Hs as [Hs | Hs].
    - apply (isExcluded_hit _ _ _ (s ++ "/**")%string).
      + apply in_or_app. left. unfold defaultExcludes. apply in_or_app. left.
        apply in_map_iff. now exists s.
      + rewrite tree_pattern_branch. now rewrite String.eqb_refl.
    - apply A in Hs as [_ [p [Hp Sk]]].
      rewrite split_pieces in Hp. apply in_map_iff in Hp as [piece [<- Hpiece]].
      destruct (extra_fold _ _ _ _ _ Fo) as [_ [_ Complete]].
      assert (String_trim piece <> ""%string) as T.
      { destruct Sk as [[Tr ->] | [_ [_ ->]]]; [|exact Ns].
        intros C. rewrite C in Tr. discriminate. }
      destruct (Complete piece Hpiece T) as [q [Hq Pq]].
      apply (isExcluded_hit _ _ _ q); [apply in_or_app; now right|].
      destruct Sk as [[Tr ->] | [_ [St ->]]].
      + apply endsWith_iff in Tr as [pre Tr]. rewrite Tr in *.
        change 3%nat with (String.length "/**").
        rewrite slice_0_neg_append.
        assert (includes (pre ++ "/**") "*" = true) as Star.
        { apply includes_iff. exists (pre ++ "/")%string, "*"%string.
          now rewrite append_assoc. }
        unfold extra_pattern_from in Pq. cbv zeta in Pq. rewrite Tr in Pq.
        destruct Pq as [_ [[_ ->] | [[C _] | [C _]]]]; try congruence.
        rewrite tree_pattern_branch. now rewrite String.eqb_refl.
      + rewrite (extra_pattern_answer _ _ _ _ _ _ Pq St).
        unfold at_or_below. rewrite String.eqb_refl.
        now destruct (isDirectoryAt _ _) as [[|]|]. }
  split; [exact Hit|]. intros C.
  assert (forallb pattern_compiles (ExcludePatterns.allExcludes r) = true) as CA.
  { unfold prepareExcludePatterns in E.
    destruct (fold_left _ _ (Returned [])) as [res|err]; [|discriminate].
    assert (ExcludePatterns.allExcludes r
            = defaultExcludes ++ ExcludePatterns.extraExcludes r) as ->
      by (injection E as <-; reflexivity).
    rewrite forallb_app, C. now rewrite default_patterns_compile. }
  rewrite (isExcluded_some _ _ _ CA) in Hit |- *.
  destruct (existsb _ _); [reflexivity | congruence].
Qed.

Lemma skipped_directory_is_excluded_witness :
  isExcluded (path_join "" "lib")
    (defaultExcludes ++ ["lib/**"; "*.log"; "notes.txt"]) true
  = Some true.
Proof.
  apply (proj2 (@skipped_directory_is_excluded fragment_host
                  (fun _ p => Returned (String.eqb p "lib"))
                  (Options.mk "." (Some "lib, *.log, ,notes.txt") None None
                     None false false None false)
                  (ExcludePatterns.mk defaultExcludes
                     ["lib/**"; "*.log"; "notes.txt"]
                     (defaultExcludes ++ ["lib/**"; "*.log"; "notes.txt"]))
                  "lib" "" eq_refl ltac:(discriminate) eq_refl)).
  reflexivity.
Defined.

(* ------------------------------------------------------------------ *)
(** ** Comma-separated lists and the command line *)

Section CommaLists.

Local Open Scope string_scope.

Lemma split_at_commas_join (s : string) :
  Array_join (fst (split_at_commas s) :: snd (split_at_commas s)) = s.
Proof.
  induction s as [|c rest IH]; [reflexivity|]. cbn [split_at_commas].
  destruct (split_at_commas rest) as [piece pieces]. cbn [fst snd] in IH.
  destruct (Ascii.eqb_spec c ",") as [-> | N]; cbn [fst snd]; rewrite <- IH.
  - reflexivity.
  - now destruct pieces.
Qed.

Lemma String_split_fst_snd (s : string) :
  String_split s = fst (split_at_commas s) :: snd (split_at_commas s).
Proof. unfold String_split. now destruct (split_at_commas s). Qed.

Lemma split_no_comma (x : string) :
  includes x "," = false -> split_at_commas x = (x, []).
Proof.
  induction x as [|c x IH]; [reflexivity|].
  rewrite includes_cons_char. intros H. apply orb_false_iff in H as [Hc Hx].
  cbn [split_at_commas]. now rewrite (IH Hx), Hc.
Qed.

Lemma split_append (x t : string) :
  includes x "," = false ->
  split_at_commas (x ++ "," ++ t)
  = (x, fst (split_at_commas t) :: snd (split_at_commas t)).
Proof.
  induction x as [|c x IH].
  - intros _. cbn [append split_at_commas Ascii.eqb Bool.eqb].
    now destruct (split_at_commas t).
  - rewrite includes_cons_char. intros H. apply orb_false_iff in H as [Hc Hx].
    cbn [append split_at_commas]. change (x ++ String "," t) with (x ++ "," ++ t).
    now rewrite (IH Hx), Hc.
Qed.

Lemma split_join (xs : list string) :
  xs <> [] -> Forall (fun x => includes x "," = false) xs ->
  String_split (Array_join xs) = xs.
Proof.
  induction xs as [|x xs IH]; [congruence|]. intros _ F.
  apply Forall_cons_iff in F as [Hx F]. rewrite String_split_fst_snd.
  destruct xs as [|y ys].
  - cbn [Array_join]. now rewrite (split_no_comma _ Hx).
  - change (Array_join (x :: y :: ys)) with (x ++ "," ++ Array_join (y :: ys)).
    rewrite (split_append _ _ Hx). cbn [fst snd].
    rewrite <- String_split_fst_snd, IH; [reflexivity | discriminate | exact F].
Qed.

Lemma pieces_no_comma (s : string) :
  Forall (fun piece => includes piece "," = false) (String_split s).
Proof.
  rewrite String_split_fst_snd.
  induction s as [|c rest IH]; [repeat constructor|].
  cbn [split_at_commas]. destruct (split_at_commas rest) as [piece pieces].
  cbn [fst snd] in IH. apply Forall_cons_iff in IH as [Hp Hps].
  destruct (Ascii.eqb c ",") eqn:C; cbn [fst snd].
  - constructor; [reflexivity|]. now constructor.
  - constructor; [|exact Hps]. now rewrite includes_cons_char, C, Hp.
Qed.

(** [trim] takes a part of the text out of its middle. *)
Lemma trimStart_suffix (s : string) : exists pre, s = pre ++ trimStart s.
Proof.
  induction s as [|c s [pre IH]]; [now exists ""|]. cbn [trimStart].
  destruct (is_white_space c); [|now exists ""].
  exists (String c pre). cbn [append]. now rewrite <- IH.
Qed.

Lemma trimEnd_prefix (s : string) : exists post, s = trimEnd s ++ post.
Proof.
  induction s as [|c s [post IH]]; [now exists ""|]. cbn [trimEnd].
  destruct (trimEnd s) as [|k kept].
  - cbn [append] in IH. subst post.
    destruct (is_white_space c); [now exists (String c s) | now exists s].
  - exists post. cbn [append] in *. now rewrite <- IH.
Qed.

Lemma trim_part (s : string) : exists pre post, s = pre ++ String_trim s ++ post.
Proof.
  destruct (trimStart_suffix s) as [pre E].
  destruct (trimEnd_prefix (trimStart s)) as [post E'].
  exists pre, post. unfold String_trim. now rewrite <- E', <- E.
Qed.

Lemma trim_no_comma (x : string) :
  includes x "," = false -> includes (String_trim x) "," = false.
Proof.
  intros H. destruct (includes (String_trim x) ",") eqn:I; [|reflexivity].
  apply includes_iff in I as [a [b I]].
  destruct (trim_part x) as [pre [post E]]. rewrite I in E.
  assert (includes x "," = true) as C; [|congruence].
  apply includes_iff. exists (pre ++ a), (b ++ post).
  rewrite E, !append_assoc. reflexivity.
Qed.

Lemma trimEnd_idem (s : string) : trimEnd (trimEnd s) = trimEnd s.
Proof.
  induction s as [|c s IH]; [reflexivity|]. cbn [trimEnd].
  destruct (trimEnd s) as [|k kept] eqn:E.
  - destruct (is_white_space c) eqn:W; [reflexivity|].
    cbn [trimEnd]. now rewrite W.
  - cbn [trimEnd]. cbn [trimEnd] in IH. now rewrite IH.
Qed.

Lemma trimStart_head (s : string) :
  match trimStart s with
  | EmptyString => True
  | String c _ => is_white_space c = false
  end.
Proof.
  induction s as [|c s IH]; [exact I|]. cbn [trimStart].
  destruct (is_white_space c) eqn:W; [exact IH | exact W].
Qed.

Lemma trimStart_trimEnd (t : string) :
  match t with
  | EmptyString => True
  | String c _ => is_white_space c = false
  end ->
  trimStart (trimEnd t) = trimEnd t.
Proof.
  destruct t as [|c t]; [reflexivity|]. intros W. cbn [trimEnd].
  destruct (trimEnd t) as [|k kept]; rewrite ?W; cbn [trimStart]; now rewrite W.
Qed.

Lemma trim_idem (s : string) : String_trim (String_trim s) = String_trim s.
Proof.
  unfold String_trim.
  now rewrite (trimStart_trimEnd _ (trimStart_head s)), trimEnd_idem.
Qed.

Lemma includePatterns_normal (s : string) :
  Forall (fun p => p <> "" /\ String_trim p = p /\ includes p "," = false)
    (includePatterns s).
Proof.
  apply Forall_forall. intros p Hp. unfold includePatterns in Hp.
  apply filter_In in Hp as [Hp N]. apply in_map_iff in Hp as [piece [<- Hp]].
  split; [now apply String.eqb_neq, negb_true_iff|].
  split; [apply trim_idem|]. apply trim_no_comma.
  pose proof (pieces_no_comma s) as F. rewrite Forall_forall in F. now apply F.
Qed.

Lemma includePatterns_of_normal (ps : list string) :
  Forall (fun p => p <> "" /\ String_trim p = p /\ includes p "," = false) ps ->
  includePatterns (Array_join ps) = ps.
Proof.
  intros F. destruct ps as [|p ps]; [reflexivity|].
  unfold includePatterns. rewrite split_join; [|discriminate|].
  - induction F as [|x xs [N [T _]] _ IH]; [reflexivity|].
    cbn [map filter]. rewrite T.
    destruct (String.eqb_spec x "") as [C | _]; [contradiction|].
    cbn [negb]. now rewrite IH.
  - apply (Forall_impl _ (fun x H => proj2 (proj2 H)) F).
Qed.

Lemma join_normal_truthy (p : string) (ps : list string) :
  p <> "" -> truthy (Some (Array_join (p :: ps))) = true.
Proof.
  intros N. cbn [truthy Array_join]. apply negb_true_iff, String.eqb_neq.
  destruct ps as [|q qs]; [exact N|]. destruct p; [contradiction | discriminate].
Qed.

Lemma append_same_tail (x t : string) : x ++ t = t -> x = "".
Proof.
  intros H. apply (f_equal String.length) in H. rewrite length_append in H.
  destruct x; [reflexivity | cbn in H; lia].
Qed.

End CommaLists.

(** X13. The comma-separated lists of the options: joining the pieces
    that [split] cuts gives the text back, no piece holds a comma and
    there is always at least one piece; a list of patterns that is not
    empty and holds no comma is given back piece by piece when its
    joined text, as [buildCommand] writes it after -e and -i, is split
    again. *)
Theorem comma_list_round_trip :
  (forall s, Array_join (String_split s) = s)
  /\ (forall s, String_split s <> []
                /\ Forall (fun piece => includes piece "," = false)
                     (String_split s))
  /\ (forall patterns,
        patterns <> [] ->
        Forall (fun pattern => includes pattern "," = false) patterns ->
        String_split (Array_join patterns) = patterns).
Proof.
  split; [|split].
  - intros s. rewrite String_split_fst_snd. apply split_at_commas_join.
  - intros s. split; [|apply pieces_no_comma].
    rewrite String_split_fst_snd. discriminate.
  - exact split_join.
Qed.

Lemma comma_list_round_trip_witness :
  String_split (Array_join ["node_modules/**"; "*.min.js"; "src/a.js"])
  = ["node_modules/**"; "*.min.js"; "src/a.js"].
Proof.
  apply (proj2 (proj2 comma_list_round_trip)
           ["node_modules/**"; "*.min.js"; "src/a.js"]).
  - discriminate.
  - repeat constructor.
Defined.

(** X14. [buildCommand] normalises the include option: the patterns it
    writes after -i are the pieces of the option, trimmed, without the
    blank ones, so none is empty, starts or ends with white space or
    holds a comma; -i is left out exactly when no such pattern
    remains; and handing the written value back as the include option
    gives the same command. *)
Theorem include_option_is_normalised :
  forall (options : Options.t) (allExcludes : list string) (s : string),
    Forall (fun p => p <> ""%string /\ String_trim p = p
                     /\ includes p "," = false)
      (includePatterns s)
    /\ (buildCommand (with_include options (Some s)) allExcludes
        = buildCommand (with_include options None) allExcludes
        <-> includePatterns s = [])
    /\ includePatterns (Array_join (includePatterns s)) = includePatterns s
    /\ buildCommand
         (with_include options (Some (Array_join (includePatterns s))))
         allExcludes
       = buildCommand (with_include options (Some s)) allExcludes.
Proof.
  intros options allExcludes s.
  pose proof (includePatterns_normal s) as F.
  pose proof (includePatterns_of_normal _ F) as I.
  split; [exact F|].
  assert (forall inc,
             ((truthy inc = false \/ includePatterns (text_of inc) = [])
              /\ buildCommand (with_include options inc) allExcludes
                 = buildCommand (with_include options None) allExcludes)
             \/ (truthy inc = true
                 /\ includePatterns (text_of inc) <> []
                 /\ exists head tail flag,
                      buildCommand (with_include options None) allExcludes
                      = (head ++ tail)%string
                      /\ buildCommand (with_include options inc) allExcludes
                         = (head ++ String " " flag ++ tail)%string)) as Shape.
  { intros inc. unfold buildCommand, with_include.
    cbn [Options.include Options.outputFile Options.outputFormat
         Options.directory Options.encoding Options.includePriority
         Options.fullDirectoryTree Options.lineNumbers booleanFlags].
    cbv zeta. cbn [truthy].
    match goal with
    | |- (_ /\ _ = (?c ++ ?t)%string) \/ _ => set (head := c); set (tail := t)
    end.
    destruct (truthy inc) eqn:T; [|left; auto].
    destruct (includePatterns (text_of inc)) as [|p ps] eqn:P; [left; auto|].
    right. split; [reflexivity|]. split; [discriminate|].
    exists head, tail. eexists. split; [reflexivity|].
    cbn [List.length Nat.ltb Nat.leb].
    rewrite append_assoc. reflexivity. }
  assert (forall inc,
             truthy inc = false \/ includePatterns (text_of inc) = [] ->
             buildCommand (with_include options inc) allExcludes
             = buildCommand (with_include options None) allExcludes) as Off.
  { intros inc H. destruct (Shape inc) as [[_ E] | [T [N _]]]; [exact E|].
    destruct H; congruence. }
  split; [|split; [exact I|]].
  - split; [|intros P; apply Off; now right].
    intros E.
    destruct (Shape (Some s)) as [[[T | P] _] | [_ [_ [h [t [f [E0 E1]]]]]]].
    + cbn [truthy] in T. apply negb_false_iff, String.eqb_eq in T. now subst s.
    + exact P.
    + rewrite E0, E1 in E. apply append_cancel_l, append_same_tail in E.
      discriminate.
  - destruct (includePatterns s) as [|p ps] eqn:P.
    + rewrite (Off (Some s)) by (right; exact P). apply Off. now left.
    + apply Forall_cons_iff in F as [[N _] _].
      pose proof (join_normal_truthy p ps N) as T.
      assert (truthy (Some s) = true) as Ts.
      { cbn [truthy]. apply negb_true_iff, String.eqb_neq. intros ->.
        discriminate. }
      unfold buildCommand, with_include.
      cbn [Options.include Options.outputFile Options.outputFormat
           Options.directory Options.encoding Options.includePriority
           Options.fullDirectoryTree Options.lineNumbers booleanFlags].
      cbv zeta. rewrite T, Ts. cbn [text_of]. rewrite I, P. reflexivity.
Qed.

(* ------------------------------------------------------------------ *)
(** ** Further properties of the choices and of the planner *)

Section ChoicesMore.

Context {host : RegExpHost}.

(** Sorting a list that is in order leaves it as it is. *)
Lemma Array_sort_sorted_id {A : Type} (key : A -> Z) (l : list A) :
  StronglySorted (fun a b => key b <= key a) l ->
  Array_sort (desc_by key) l = l.
Proof.
  induction 1 as [|x l S IH F]; [reflexivity|].
  cbn [Array_sort]. rewrite IH. destruct l as [|y ys]; [reflexivity|].
  cbn [sort_insert]. apply Forall_inv in F. unfold desc_by.
  assert ((key y - key x <=? 0) = true) as -> by (apply Z.leb_le; lia).
  reflexivity.
Qed.

Lemma StronglySorted_filter {A : Type} (R : A -> A -> Prop) (p : A -> bool)
    (l : list A) :
  StronglySorted R l -> StronglySorted R (filter p l).
Proof.
  induction 1 as [|x l S IH F]; [constructor|]. cbn [filter].
  destruct (p x); [|exact IH]. constructor; [exact IH|].
  rewrite Forall_forall in F |- *. intros y Hy. apply F.
  now apply filter_In in Hy as [Hy _].
Qed.

Lemma sorted_filter_id (p : Item.t -> bool) (l : list Item.t) :
  StronglySorted (fun a b => Item.size b <= Item.size a) l ->
  Array_sort by_size_desc (filter p l) = filter p l.
Proof.
  intros S. apply (Array_sort_sorted_id Item.size).
  now apply StronglySorted_filter.
Qed.




End ChoicesMore.

(** X15. [createSelectionChoices] sorts the files and the directories
    of the scan once more; on entries already in decreasing order of
    size, as [scanDirectory] returns them, that second sort changes
    nothing: the file choices and the directory choices list the files
    and the directories in the order of the scan. *)
Theorem choices_keep_scan_order {host : RegExpHost} :
  (forall (items : list Item.t) (allExcludes : list string),
      StronglySorted (fun a b => Item.size b <= Item.size a) items ->
      (forall choices,
          fileChoices items allExcludes = Some choices ->
          map Choice.value choices
          = map Item.path
              (filter (fun item => negb (Item.isDirectory item)) items)
          /\ map Choice.size choices
             = map Item.size
                 (filter (fun item => negb (Item.isDirectory item)) items))
      /\ (forall choices,
            directoryChoices items allExcludes = Some choices ->
            map DirChoice.value choices
            = map (fun item => (Item.path item ++ "/**")%string)
                (filter Item.isDirectory items)))
  /\ (forall (root : node) (skipDirs : list string),
        exists found lines,
          scanDirectory root skipDirs = (Returned found, lines)
          /\ StronglySorted (fun a b => Item.size b <= Item.size a) found).
Proof.
  split.
  - intros items pats S. split.
    + intros choices F. unfold fileChoices in F.
      rewrite (sorted_filter_id _ _ S) in F. split.
      * apply (mapM_map _ Choice.value Item.path _ _) with (2 := F).
        intros item c E.
        destruct (isExcluded (Item.path item) pats false); [|discriminate].
        now injection E as <-.
      * apply (mapM_map _ Choice.size Item.size _ _) with (2 := F).
        intros item c E.
        destruct (isExcluded (Item.path item) pats false); [|discriminate].
        now injection E as <-.
    + intros choices F. unfold directoryChoices in F.
      rewrite (sorted_filter_id _ _ S) in F.
      apply (mapM_map _ DirChoice.value
               (fun item => (Item.path item ++ "/**")%string) _ _) with (2 := F).
      intros item c E.
      destruct (isExcluded (Item.path item) pats true); [|discriminate].
      now injection E as <-.
  - intros root skipDirs. rewrite scanDirectory_walk. do 2 eexists.
    split; [reflexivity|]. apply (Array_sort_sorted Item.size).
Qed.

Lemma choices_keep_scan_order_witness :
  map Choice.value
    [Choice.mk "src/b.js" 30 false; Choice.mk "c.min.js" 20 true;
     Choice.mk "a.js" 10 false]
  = map Item.path
      (filter (fun item => negb (Item.isDirectory item))
         [Item.mk "src" true 30; Item.mk "src/b.js" false 30;
          Item.mk "c.min.js" false 20; Item.mk "a.js" false 10]).
Proof.
  refine (proj1 (proj1 (proj1 (@choices_keep_scan_order fragment_host)
                          [Item.mk "src" true 30; Item.mk "src/b.js" false 30;
                           Item.mk "c.min.js" false 20; Item.mk "a.js" false 10]
                          ["*.min.js"] _)
                   [Choice.mk "src/b.js" 30 false; Choice.mk "c.min.js" 20 true;
                    Choice.mk "a.js" 10 false] eq_refl)).
  repeat (constructor; [|repeat constructor; cbn; lia]). constructor.
Defined.

(** X16. The planner writes its marks into the choice objects it was
    given, which are the ones shown in the selection list: when no two
    choices have the same value, the choices after the call are the
    former ones with exactly those checked in addition whose value was
    returned; values and sizes are unchanged. *)
Theorem planner_marks_shown_choices :
  forall (choices : list Choice.t) (initialSize sizeLimit : Z)
         (autoExclude : bool),
    NoDup (map Choice.value choices) ->
    let r := autoExcludeFiles choices initialSize sizeLimit autoExclude in
    choices_after r
    = map (fun c =>
             if Array_includes (autoExcluded r) (Choice.value c)
             then Choice.check c else c)
        choices
    /\ map Choice.checked (choices_after r)
       = map (fun c =>
                Choice.checked c
                || Array_includes (autoExcluded r) (Choice.value c))
           choices
    /\ map Choice.value (choices_after r) = map Choice.value choices
    /\ map Choice.size (choices_after r) = map Choice.size choices.
Proof.
  intros choices initialSize sizeLimit autoExclude ND r.
  assert (choices_after r
          = map (fun c =>
                   if Array_includes (autoExcluded r) (Choice.value c)
                   then Choice.check c else c)
              choices) as E.
  { subst r. destruct autoExclude;
      [|rewrite autoExcludeFiles_off by (now left); cbn;
        now rewrite map_id].
    destruct (Z.ltb_spec sizeLimit initialSize) as [L | L];
      [|rewrite autoExcludeFiles_off by (now right); cbn;
        now rewrite map_id].
    destruct (autoExcludeFiles_on choices _ _ L) as [k [_ [-> _]]].
    cbn [choices_after autoExcluded]. now apply mark_choices_by_value. }
  split; [exact E|]. rewrite E, !map_map. repeat split.
  - apply map_ext. intros c.
    destruct (Array_includes (autoExcluded r) (Choice.value c));
      [now rewrite orb_true_r | now rewrite orb_false_r].
  - apply map_ext. intros c.
    now destruct (Array_includes (autoExcluded r) (Choice.value c)).
  - apply map_ext. intros c.
    now destruct (Array_includes (autoExcluded r) (Choice.value c)).
Qed.

Lemma planner_marks_shown_choices_witness :
  map Choice.checked
    (choices_after
       (autoExcludeFiles
          [Choice.mk "big.js" 500 false; Choice.mk "c.min.js" 300 true;
           Choice.mk "a.js" 100 false]
          700 400 true))
  = map (fun c =>
           Choice.checked c
           || Array_includes
                (autoExcluded
                   (autoExcludeFiles
                      [Choice.mk "big.js" 500 false; Choice.mk "c.min.js" 300 true;
                       Choice.mk "a.js" 100 false]
                      700 400 true))
                (Choice.value c))
      [Choice.mk "big.js" 500 false; Choice.mk "c.min.js" 300 true;
       Choice.mk "a.js" 100 false].
Proof.
  refine (proj1 (proj2 (planner_marks_shown_choices
                          [Choice.mk "big.js" 500 false;
                           Choice.mk "c.min.js" 300 true;
                           Choice.mk "a.js" 100 false]
                          700 400 true _))).
  repeat (constructor; [cbn; intuition discriminate|]). constructor.
Defined.



(* ------------------------------------------------------------------ *)
(** ** The display of sizes *)

Section FormatSize.

Lemma toFixed2_ratio (b : Z) (d : positive) :
  0 <= b ->
  toFixed2 (b # d) = fixed_text ((200 * b + Z.pos d) / (2 * Z.pos d)).
Proof.
  intros N. unfold toFixed2, Qle_bool, Qabs, Qmult, Qplus, Qfloor, inject_Z.
  cbn [Qnum Qden].
  assert ((0 * Z.pos d <=? b * 1) = true) as -> by (apply Z.leb_le; lia).
  cbn [append]. f_equal. rewrite (Z.abs_eq b N), !Pos2Z.inj_mul.
  f_equal; lia.
Qed.

Lemma toFixed2_negative (b : Z) :
  b < 0 -> toFixed2 (inject_Z b) = ("-" ++ fixed_text (100 * - b))%string.
Proof.
  intros N. unfold toFixed2, Qle_bool, Qabs, Qmult, Qplus, Qfloor, inject_Z.
  cbn [Qnum Qden].
  assert ((0 * 1 <=? b * 1) = false) as -> by (apply Z.leb_gt; lia).
  f_equal. f_equal. rewrite (Z.abs_neq b) by lia.
  change (Z.pos (1 * 1 * 2)) with 2. change (Z.pos (1 * 1)) with 1.
  symmetry. apply (Z.div_unique _ 2 _ 1); lia.
Qed.

(** The loop and the rounding, in whole numbers. *)
Lemma formatSize_closed (bytes : Z) :
  0 <= bytes ->
  formatSize bytes
  = (fixed_text (hundredths bytes (unit_index bytes)) ++ " "
       ++ nth (unit_index bytes) units "")%string.
Proof.
  intros N. unfold formatSize, unit_index, hundredths, units.
  cbn [tl format_loop].
  unfold Qle_bool, Qdiv, Qmult, Qinv, inject_Z. cbn [Qnum Qden].
  rewrite !Z.mul_1_r.
  change (Z.pos (1 * 1024)) with 1024.
  change (Z.pos (1 * 1024 * 1024)) with (1024 * 1024).
  change (1024 ^ 2) with (1024 * 1024).
  change (1024 ^ 3) with (1024 * (1024 * 1024)).
  destruct (Z.ltb_spec bytes 1024) as [A | A].
  { assert ((1024 <=? bytes) = false) as -> by (apply Z.leb_gt; lia).
    now rewrite (toFixed2_ratio bytes 1 N). }
  assert ((1024 <=? bytes) = true) as -> by (apply Z.leb_le; lia).
  destruct (Z.ltb_spec bytes (1024 * 1024)) as [B | B].
  { assert ((1024 * 1024 <=? bytes) = false) as -> by (apply Z.leb_gt; lia).
    now rewrite (toFixed2_ratio bytes (1 * 1024) N). }
  assert ((1024 * 1024 <=? bytes) = true) as -> by (apply Z.leb_le; lia).
  destruct (Z.ltb_spec bytes (1024 * (1024 * 1024))) as [C | C].
  { assert ((1024 * (1024 * 1024) <=? bytes) = false) as ->
      by (apply Z.leb_gt; lia).
    now rewrite (toFixed2_ratio bytes (1 * 1024 * 1024) N). }
  assert ((1024 * (1024 * 1024) <=? bytes) = true) as ->
    by (apply Z.leb_le; lia).
  now rewrite (toFixed2_ratio bytes (1 * 1024 * 1024 * 1024) N).
Qed.

Lemma hundredths_nearest (bytes : Z) (k : nat) :
  2 * Z.abs (100 * bytes - hundredths bytes k * 1024 ^ Z.of_nat k)
  <= 1024 ^ Z.of_nat k.
Proof.
  unfold hundredths. set (D := 1024 ^ Z.of_nat k).
  assert (0 < D) as P by (apply Z.pow_pos_nonneg; lia).
  pose proof (Z.div_mod (200 * bytes + D) (2 * D) ltac:(lia)) as E.
  pose proof (Z.mod_pos_bound (200 * bytes + D) (2 * D) ltac:(lia)) as B.
  set (n := (200 * bytes + D) / (2 * D)) in *.
  set (r := (200 * bytes + D) mod (2 * D)) in *.
  assert (2 * D * n = 2 * (n * D)) as M by ring.
  lia.
Qed.

Lemma unit_index_cases (bytes : Z) :
  (bytes < 1024 /\ unit_index bytes = 0%nat)
  \/ (1024 <= bytes < 1024 ^ 2 /\ unit_index bytes = 1%nat)
  \/ (1024 ^ 2 <= bytes < 1024 ^ 3 /\ unit_index bytes = 2%nat)
  \/ (1024 ^ 3 <= bytes /\ unit_index bytes = 3%nat).
Proof.
  unfold unit_index.
  destruct (Z.ltb_spec bytes 1024); [left; auto|].
  destruct (Z.ltb_spec bytes (1024 ^ 2)); [right; left; auto|].
  destruct (Z.ltb_spec bytes (1024 ^ 3)); [right; right; left; auto|].
  right; right; right; auto.
Qed.

End FormatSize.

(** X18. For a byte count from 0 to below 2^53, the whole numbers
    that the host holds exactly, [formatSize] divides by 1024 until
    the value is below 1024 or the unit is GB, so the unit is B below
    1024 bytes, KB below 1024^2, MB below 1024^3 and GB from there on;
    the number it writes is the nearest number of hundredths of that
    unit, the larger one on a tie, so it is off by at most half a
    hundredth, and below 1024 bytes it is the byte count itself. *)
Theorem format_size_unit_and_rounding :
  forall (bytes : Z),
    0 <= bytes -> bytes < 2 ^ 53 ->
    formatSize bytes
    = (fixed_text (hundredths bytes (unit_index bytes)) ++ " "
         ++ nth (unit_index bytes) units "")%string
    /\ ((bytes < 1024 /\ unit_index bytes = 0%nat)
        \/ (1024 <= bytes < 1024 ^ 2 /\ unit_index bytes = 1%nat)
        \/ (1024 ^ 2 <= bytes < 1024 ^ 3 /\ unit_index bytes = 2%nat)
        \/ (1024 ^ 3 <= bytes /\ unit_index bytes = 3%nat))
    /\ 2 * Z.abs (100 * bytes
                  - hundredths bytes (unit_index bytes)
                    * 1024 ^ Z.of_nat (unit_index bytes))
       <= 1024 ^ Z.of_nat (unit_index bytes)
    /\ (bytes < 1024 -> hundredths bytes (unit_index bytes) = 100 * bytes).
Proof.
  intros bytes N _. split; [now apply formatSize_closed|].
  split; [apply unit_index_cases|]. split; [apply hundredths_nearest|].
  intros L. unfold unit_index, hundredths.
  assert ((bytes <? 1024) = true) as -> by (apply Z.ltb_lt; lia).
  change (1024 ^ Z.of_nat 0) with 1.
  symmetry. apply (Z.div_unique _ _ _ 1); lia.
Qed.

Lemma format_size_unit_and_rounding_witness :
  formatSize 1536 = "1.50 KB"%string.
Proof.
  exact (proj1 (format_size_unit_and_rounding 1536 ltac:(lia) ltac:(lia))).
Defined.

(** X19. The unit is chosen before the rounding, so [formatSize] can
    write 1024.00 of a unit: it does so for every byte count less than
    half a hundredth of a KB below 1024 KB, and likewise for MB.  GB is
    the last unit: for the byte counts from 1024^4 to below 2^53 the
    number written is 1024.00 or more.  A negative byte count above
    -2^53 is written with a minus sign, in bytes. *)
Theorem format_size_edges :
  forall (bytes : Z),
    (1024 <= bytes < 1024 ^ 2 -> 200 * (1024 ^ 2 - bytes) <= 1024 ->
     formatSize bytes = "1024.00 KB"%string)
    /\ (1024 ^ 2 <= bytes < 1024 ^ 3 -> 200 * (1024 ^ 3 - bytes) <= 1024 ^ 2 ->
        formatSize bytes = "1024.00 MB"%string)
    /\ (1024 ^ 3 <= bytes < 2 ^ 53 ->
        formatSize bytes = (fixed_text (hundredths bytes 3) ++ " GB")%string
        /\ (1024 ^ 4 <= bytes -> 102400 <= hundredths bytes 3))
    /\ (- 2 ^ 53 < bytes < 0 ->
        formatSize bytes = ("-" ++ fixed_text (100 * - bytes) ++ " B")%string).
Proof.
  intros bytes.
  change (1024 ^ 2) with 1048576. change (1024 ^ 3) with 1073741824.
  change (1024 ^ 4) with 1099511627776.
  split; [|split; [|split]].
  - intros R C. rewrite formatSize_closed by lia. unfold unit_index, hundredths.
    assert ((bytes <? 1024) = false) as -> by (apply Z.ltb_ge; lia).
    change (1024 ^ 2) with 1048576.
    assert ((bytes <? 1048576) = true) as -> by (apply Z.ltb_lt; lia).
    change (1024 ^ Z.of_nat 1) with 1024.
    assert ((200 * bytes + 1024) / (2 * 1024) = 102400) as ->; [|reflexivity].
    symmetry. apply (Z.div_unique _ _ _ (200 * bytes + 1024 - 2048 * 102400)); lia.
  - intros R C. rewrite formatSize_closed by lia. unfold unit_index, hundredths.
    assert ((bytes <? 1024) = false) as -> by (apply Z.ltb_ge; lia).
    change (1024 ^ 2) with 1048576. change (1024 ^ 3) with 1073741824.
    assert ((bytes <? 1048576) = false) as -> by (apply Z.ltb_ge; lia).
    assert ((bytes <? 1073741824) = true) as -> by (apply Z.ltb_lt; lia).
    change (1024 ^ Z.of_nat 2) with 1048576.
    assert ((200 * bytes + 1048576) / (2 * 1048576) = 102400) as ->;
      [|reflexivity].
    symmetry.
    apply (Z.div_unique _ _ _ (200 * bytes + 1048576 - 2097152 * 102400)); lia.
  - intros [R _]. split.
    + rewrite formatSize_closed by lia. unfold unit_index.
      assert ((bytes <? 1024) = false) as -> by (apply Z.ltb_ge; lia).
      change (1024 ^ 2) with 1048576. change (1024 ^ 3) with 1073741824.
      assert ((bytes <? 1048576) = false) as -> by (apply Z.ltb_ge; lia).
      assert ((bytes <? 1073741824) = false) as -> by (apply Z.ltb_ge; lia).
      reflexivity.
    + intros T. unfold hundredths. change (1024 ^ Z.of_nat 3) with 1073741824.
      apply Z.div_le_lower_bound; lia.
  - intros [_ N]. unfold formatSize, units. cbn [tl format_loop].
    unfold Qle_bool at 1. cbn [Qnum Qden inject_Z].
    assert ((1024 * 1 <=? bytes * 1) = false) as -> by (apply Z.leb_gt; lia).
    now rewrite (toFixed2_negative bytes N).
Qed.

Lemma format_size_edges_witness :
  formatSize 1048575 = "1024.00 KB"%string.
Proof.
  apply (proj1 (format_size_edges 1048575)); lia.
Defined.

(* ------------------------------------------------------------------ *)
(** ** The selection kept as the planner left it *)

Section KeptMarks.

Context {host : RegExpHost}.




End KeptMarks.



(* ------------------------------------------------------------------ *)
(** ** Skipping and the estimate *)

Section SkipEstimate.

Context {host : RegExpHost}.

Variables (skipDirs pats : list string).
Hypothesis pats_compile : forallb pattern_compiles pats = true.
Hypothesis skip_patterns :
  forall s, In s skipDirs -> In (s ++ "/**")%string pats.

Local Open Scope string_scope.








End SkipEstimate.


